(** * Chess: the move rules of [ChessBoard] (src/main.cpp)

    A shallow embedding of the rules engine that lives inside the Qt
    widget [ChessBoard]: the legality test [isValidMove] with its helpers
    [isPathBlocked], [isValidMoveWhitePawn], [isValidMoveBlackPawn], the
    promotion test and the board mutation [movePiece].

    Modelling conventions.
    - C++ [int] values are board coordinates and pixel offsets; they are
      modelled by [Z].  Signed overflow is undefined behaviour in C++, so
      there is no wrap-around to reproduce.
    - [QPointF] positions are only ever set from integers ([col * 50],
      [row * 50]); they are modelled by a pair of [Z] fields, and the
      conversion [int r = pos().y() / 50] (a division of reals truncated
      towards zero) by [Z.quot].
    - The scene is the list of its [ChessPiece] items, topmost first.  The
      rules look at scene items only after [dynamic_cast<ChessPiece*>];
      the squares drawn by [drawBoard] lie below the pieces, and the
      highlight rectangles of the presentation layer are left out, so that
      the item found on a square is the topmost piece there.  This is the
      board on its own, without rectangles.  The legality test is given a
      second time with the hit test of the scene as a parameter
      ([isValidMoveOn] and its helpers), which covers scenes that hold
      rectangles above some pieces.
    - Hit testing: the shape of a piece is taken to be the 50x50 cell whose
      top left corner is the position of the piece.
    - A pointer to a scene item is represented by the value of the item; a
      null pointer by [None].  Items of a scene in which no two pieces stand
      on the same square are pairwise distinct, so that values identify
      objects there.
    - The only loop, in [isPathBlocked], is modelled with fuel: one unit per
      evaluation of the loop condition, [None] when the fuel runs out. *)

From Stdlib Require Import ZArith List Bool Lia.
Import ListNotations.
Local Open Scope Z_scope.

(** ** Pieces *)

Inductive PieceType : Set :=
  | Pawn | Rook | Knight | Bishop | Queen | King.

(** [ChessPiece(symbol, x, y, type, isWhite)]; the glyph [symbol] is only
    drawn and is left out. *)
Record ChessPiece : Set := mkChessPiece {
  pos_x : Z;
  pos_y : Z;
  pieceType : PieceType;
  isWhitePiece : bool
}.

Definition PieceType_eqb (a b : PieceType) : bool :=
  match a, b with
  | Pawn, Pawn | Rook, Rook | Knight, Knight
  | Bishop, Bishop | Queen, Queen | King, King => true
  | _, _ => false
  end.

Definition ChessPiece_eqb (p q : ChessPiece) : bool :=
  (pos_x p =? pos_x q) && (pos_y p =? pos_y q)
  && PieceType_eqb (pieceType p) (pieceType q)
  && Bool.eqb (isWhitePiece p) (isWhitePiece q).

(** ** The scene *)

Definition Scene := list ChessPiece.

(** [scene->addItem(item)]: a new item is stacked above the older ones. *)
Definition addItem (scene : Scene) (item : ChessPiece) : Scene :=
  item :: scene.

(** [scene->removeItem(item); delete item]. *)
Fixpoint removeItem (scene : Scene) (item : ChessPiece) : Scene :=
  match scene with
  | [] => []
  | p :: rest =>
      if ChessPiece_eqb p item then rest else p :: removeItem rest item
  end.

(** [item->setPos(x, y)], seen from the scene that holds [item]. *)
Fixpoint setPos (scene : Scene) (item : ChessPiece) (x y : Z) : Scene :=
  match scene with
  | [] => []
  | p :: rest =>
      if ChessPiece_eqb p item
      then mkChessPiece x y (pieceType p) (isWhitePiece p) :: rest
      else p :: setPos rest item x y
  end.

Definition shapeContains (p : ChessPiece) (x y : Z) : bool :=
  (pos_x p <=? x) && (x <? pos_x p + 50)
  && (pos_y p <=? y) && (y <? pos_y p + 50).

Definition shapeIntersects (p : ChessPiece) (x y w h : Z) : bool :=
  (pos_x p <? x + w) && (x <? pos_x p + 50)
  && (pos_y p <? y + h) && (y <? pos_y p + 50).

(** [dynamic_cast<ChessPiece*>(scene->itemAt(x, y, QTransform()))]. *)
Definition itemAt (scene : Scene) (x y : Z) : option ChessPiece :=
  find (fun p => shapeContains p x y) scene.

(** [scene->items(QRectF(x, y, w, h), Qt::IntersectsItemShape)], pieces
    only, in the default descending stacking order. *)
Definition items (scene : Scene) (x y w h : Z) : list ChessPiece :=
  filter (fun p => shapeIntersects p x y w h) scene.

(** ** [ChessBoard::setupPieces] *)

Definition setupPieces (scene : Scene) : Scene :=
  (* Setup white pieces *)
  let scene := addItem scene (mkChessPiece 0 0 Rook true) in
  let scene := addItem scene (mkChessPiece 350 0 Rook true) in
  let scene := addItem scene (mkChessPiece 50 0 Knight true) in
  let scene := addItem scene (mkChessPiece 300 0 Knight true) in
  let scene := addItem scene (mkChessPiece 100 0 Bishop true) in
  let scene := addItem scene (mkChessPiece 250 0 Bishop true) in
  let scene := addItem scene (mkChessPiece 150 0 Queen true) in
  let scene := addItem scene (mkChessPiece 200 0 King true) in
  let scene := addItem scene (mkChessPiece 0 50 Pawn true) in
  let scene := addItem scene (mkChessPiece 50 50 Pawn true) in
  let scene := addItem scene (mkChessPiece 100 50 Pawn true) in
  let scene := addItem scene (mkChessPiece 150 50 Pawn true) in
  let scene := addItem scene (mkChessPiece 200 50 Pawn true) in
  let scene := addItem scene (mkChessPiece 250 50 Pawn true) in
  let scene := addItem scene (mkChessPiece 300 50 Pawn true) in
  let scene := addItem scene (mkChessPiece 350 50 Pawn true) in
  (* Setup black pieces *)
  let scene := addItem scene (mkChessPiece 0 350 Rook false) in
  let scene := addItem scene (mkChessPiece 350 350 Rook false) in
  let scene := addItem scene (mkChessPiece 50 350 Knight false) in
  let scene := addItem scene (mkChessPiece 300 350 Knight false) in
  let scene := addItem scene (mkChessPiece 100 350 Bishop false) in
  let scene := addItem scene (mkChessPiece 250 350 Bishop false) in
  let scene := addItem scene (mkChessPiece 150 350 Queen false) in
  let scene := addItem scene (mkChessPiece 200 350 King false) in
  let scene := addItem scene (mkChessPiece 0 300 Pawn false) in
  let scene := addItem scene (mkChessPiece 50 300 Pawn false) in
  let scene := addItem scene (mkChessPiece 100 300 Pawn false) in
  let scene := addItem scene (mkChessPiece 150 300 Pawn false) in
  let scene := addItem scene (mkChessPiece 200 300 Pawn false) in
  let scene := addItem scene (mkChessPiece 250 300 Pawn false) in
  let scene := addItem scene (mkChessPiece 300 300 Pawn false) in
  let scene := addItem scene (mkChessPiece 350 300 Pawn false) in
  scene.

(** The board as the constructor of [ChessBoard] leaves it. *)
Definition startScene : Scene := setupPieces [].

(** ** [ChessBoard::isPathBlocked] *)

(** The [while] loop; [fuel] bounds the evaluations of its condition. *)
Fixpoint isPathBlocked_loop (fuel : nat) (scene : Scene)
    (currentRow currentCol endRow endCol rowDirection colDirection : Z)
    : option bool :=
  match fuel with
  | O => None
  | S fuel' =>
      if negb (currentRow =? endRow) || negb (currentCol =? endCol) then
        match itemAt scene (currentCol * 50 + 25) (currentRow * 50 + 25) with
        | Some _ => Some true (* Found a chess piece blocking the path. *)
        | None =>
            isPathBlocked_loop fuel' scene
              (currentRow + rowDirection) (currentCol + colDirection)
              endRow endCol rowDirection colDirection
        end
      else Some false (* Path is not blocked. *)
  end.

Definition isPathBlocked (fuel : nat) (scene : Scene)
    (startRow startCol endRow endCol : Z) : option bool :=
  if (startRow =? endRow) && (startCol =? endCol) then Some false
  else
    let rowDirection :=
      if endRow >? startRow then 1 else if endRow <? startRow then -1 else 0 in
    let colDirection :=
      if endCol >? startCol then 1 else if endCol <? startCol then -1 else 0 in
    isPathBlocked_loop fuel scene
      (startRow + rowDirection) (startCol + colDirection)
      endRow endCol rowDirection colDirection.

(** ** Sequencing of calls that may not return *)

Definition bind {A B : Type} (m : option A) (k : A -> option B) : option B :=
  match m with
  | Some a => k a
  | None => None
  end.

Notation "x <- m ;; k" := (bind m (fun x => k))
  (at level 61, m at next level, right associativity).

(** [c && call()]: the call is made only when [c] holds. *)
Definition andThen (c : bool) (call : option bool) : option bool :=
  if c then call else Some false.

(** [!call()]. *)
Definition notM (call : option bool) : option bool :=
  b <- call ;; Some (negb b).

(** [piece->pos().y() / 50] and [piece->pos().x() / 50]. *)
Definition currentRowOf (piece : ChessPiece) : Z := Z.quot (pos_y piece) 50.
Definition currentColOf (piece : ChessPiece) : Z := Z.quot (pos_x piece) 50.

(** ** [ChessBoard::isValidMoveWhitePawn] *)

Definition isValidMoveWhitePawn (fuel : nat) (scene : Scene)
    (piece : option ChessPiece) (newRow newCol : Z) : option bool :=
  match piece with
  | None => Some false
  | Some p =>
      let currentRow := currentRowOf p in
      let currentCol := currentColOf p in
      let rowDiff := newRow - currentRow in
      let colDiff := newCol - currentCol in
      let destinationPiece :=
        itemAt scene (newCol * 50 + 25) (newRow * 50 + 25) in
      (* Forward movement without capture *)
      forward <-
        (if (colDiff =? 0)
            && match destinationPiece with None => true | Some _ => false end
         then
           if rowDiff =? 1 then Some true
           else
             andThen ((rowDiff =? 2) && (currentRow =? 6))
               (notM (isPathBlocked fuel scene
                        currentRow currentCol newRow newCol))
         else Some false) ;;
      if forward then Some true
      else
        (* Capture move *)
        if (Z.abs colDiff =? 1) && (rowDiff =? -1) then
          match itemAt scene (newCol * 50 + 25) (newRow * 50 + 25) with
          | Some d =>
              if negb (Bool.eqb (isWhitePiece d) (isWhitePiece p))
              then Some true
              else Some false
          | None => Some false
          end
        else Some false
  end.

(** ** [ChessBoard::isValidMoveBlackPawn] *)

Definition isValidMoveBlackPawn (fuel : nat) (scene : Scene)
    (piece : option ChessPiece) (newRow newCol : Z) : option bool :=
  match piece with
  | None => Some false
  | Some p =>
      let currentRow := currentRowOf p in
      let currentCol := currentColOf p in
      let rowDiff := newRow - currentRow in
      let colDiff := newCol - currentCol in
      let destinationPiece :=
        itemAt scene (newCol * 50 + 25) (newRow * 50 + 25) in
      (* Forward movement without capture *)
      forward <-
        (if (colDiff =? 0)
            && match destinationPiece with None => true | Some _ => false end
         then
           if rowDiff =? -1 then Some true
           else
             andThen ((rowDiff =? -2) && (currentRow =? 1))
               (notM (isPathBlocked fuel scene
                        currentRow currentCol newRow newCol))
         else Some false) ;;
      if forward then Some true
      else
        (* Capture move *)
        Some ((Z.abs colDiff =? 1) && (rowDiff =? 1)
              && match destinationPiece with
                 | Some d => negb (Bool.eqb (isWhitePiece d) (isWhitePiece p))
                 | None => false
                 end)
  end.

(** ** [ChessBoard::isValidMove] *)

Definition isValidMove (fuel : nat) (scene : Scene)
    (piece : option ChessPiece) (newRow newCol : Z) : option bool :=
  match piece with
  | None => Some false
  | Some p =>
      let currentRow := currentRowOf p in
      let currentCol := currentColOf p in
      (* Check if the destination is the same as the current position *)
      if (newRow =? currentRow) && (newCol =? currentCol) then Some false
      else
        let rowDiff := newRow - currentRow in
        let colDiff := newCol - currentCol in
        let absRowDiff := Z.abs rowDiff in
        let absColDiff := Z.abs colDiff in
        let destinationPiece :=
          itemAt scene (newCol * 50 + 25) (newRow * 50 + 25) in
        (* Ensure a piece doesn't capture one of the same color *)
        if match destinationPiece with
           | Some d => Bool.eqb (isWhitePiece d) (isWhitePiece p)
           | None => false
           end
        then Some false
        else
          match pieceType p with
          | Pawn =>
              if isWhitePiece p
              then isValidMoveWhitePawn fuel scene piece newRow newCol
              else isValidMoveBlackPawn fuel scene piece newRow newCol
          | Rook =>
              (* Not moving straight *)
              if negb (newRow =? currentRow) && negb (newCol =? currentCol)
              then Some false
              else
                blocked <-
                  andThen ((rowDiff >? 1) || (colDiff >? 1))
                    (isPathBlocked fuel scene
                       currentRow currentCol newRow newCol) ;;
                if blocked then Some false else Some true
          | Knight =>
              Some ((absRowDiff =? 2) && (absColDiff =? 1)
                    || (absRowDiff =? 1) && (absColDiff =? 2))
          | Bishop =>
              andThen (absRowDiff =? absColDiff)
                (notM (isPathBlocked fuel scene
                         currentRow currentCol newRow newCol))
          | Queen =>
              andThen ((absRowDiff =? absColDiff)
                       || (rowDiff =? 0) || (colDiff =? 0))
                (notM (isPathBlocked fuel scene
                         currentRow currentCol newRow newCol))
          | King =>
              andThen ((absRowDiff <=? 1) && (absColDiff <=? 1)
                       && (absRowDiff + absColDiff >? 0))
                (notM (isPathBlocked fuel scene
                         currentRow currentCol newRow newCol))
          end
  end.

(** ** [ChessBoard::isPawnPromotion] and [ChessBoard::promotePawn] *)

Definition isPawnPromotion (piece : ChessPiece) (newRow : Z) : bool :=
  PieceType_eqb (pieceType piece) Pawn
  && ((newRow =? 0) || (newRow =? 7)).

Definition promotePawn (scene : Scene) (piece : ChessPiece)
    (newRow newCol : Z) : Scene :=
  (* Replace pawn with a queen *)
  let isWhite := isWhitePiece piece in
  let scene := removeItem scene piece in
  addItem scene (mkChessPiece (newCol * 50) (newRow * 50) Queen isWhite).

(** ** [ChessBoard::movePiece] *)

(** The capture loop: the first piece of the other color among the items
    at the destination is removed. *)
Definition capture (scene : Scene) (piece : ChessPiece) (row col : Z)
    : Scene :=
  let itemsAtDestination := items scene (col * 50) (row * 50) 50 50 in
  match find (fun q => negb (ChessPiece_eqb q piece)
                       && negb (Bool.eqb (isWhitePiece q)
                                         (isWhitePiece piece)))
             itemsAtDestination with
  | Some potentialCapturedPiece => removeItem scene potentialCapturedPiece
  | None => scene
  end.

Definition movePiece (fuel : nat) (scene : Scene)
    (piece : option ChessPiece) (row col : Z) : option (bool * Scene) :=
  match piece with
  | None => Some (false, scene)
  | Some p =>
      valid <- isValidMove fuel scene piece row col ;;
      if valid then
        let scene := capture scene p row col in
        (* Check for pawn promotion *)
        let scene :=
          if isPawnPromotion p row then promotePawn scene p row col
          else (* Move the piece to the new location *)
            setPos scene p (col * 50) (row * 50) in
        (* The move was successful *)
        Some (true, scene)
      else
        (* The move was not successful (invalid move) *)
        Some (false, scene)
  end.

(** ** [ChessBoard::highlightValidMoves]: the squares that pass the test

    The squares of the board, in the order of the two loops, for which
    [isValidMove] holds on the scene as it is given.  The rectangles that
    the code adds to the scene for the squares it accepts are not part of
    this definition. *)

Definition boardSquares : list (Z * Z) :=
  flat_map (fun row => map (fun col => (row, col)) [0;1;2;3;4;5;6;7])
           [0;1;2;3;4;5;6;7].

Definition highlightValidMoves (fuel : nat) (scene : Scene)
    (piece : ChessPiece) : list (Z * Z) :=
  filter (fun sq =>
            match isValidMove fuel scene (Some piece) (fst sq) (snd sq) with
            | Some true => true
            | _ => false
            end)
         boardSquares.

(** ** Vocabulary for the statements *)

(** The piece standing on square [(row, col)]: the hit test the rules use. *)
Definition pieceAt (scene : Scene) (row col : Z) : option ChessPiece :=
  itemAt scene (col * 50 + 25) (row * 50 + 25).


(** The destination holds a piece of the color of [piece]. *)
Definition sameColorAt (scene : Scene) (piece : ChessPiece) (row col : Z)
    : bool :=
  match pieceAt scene row col with
  | Some d => Bool.eqb (isWhitePiece d) (isWhitePiece piece)
  | None => false
  end.

(** The destination holds a piece of the other color. *)
Definition otherColorAt (scene : Scene) (piece : ChessPiece) (row col : Z)
    : bool :=
  match pieceAt scene row col with
  | Some d => negb (Bool.eqb (isWhitePiece d) (isWhitePiece piece))
  | None => false
  end.

(** The L-shaped offsets of the Knight. *)
Definition knightOffset (piece : ChessPiece) (row col : Z) : bool :=
  (Z.abs (row - currentRowOf piece) =? 2)
  && (Z.abs (col - currentColOf piece) =? 1)
  || (Z.abs (row - currentRowOf piece) =? 1)
     && (Z.abs (col - currentColOf piece) =? 2).

(** The unit step of [isPathBlocked] along one axis. *)
Definition direction (from to : Z) : Z :=
  if to >? from then 1 else if to <? from then -1 else 0.

(** Two squares on a common row, column or diagonal. *)
Definition aligned (row col row' col' : Z) : bool :=
  (row' =? row) || (col' =? col)
  || (Z.abs (row' - row) =? Z.abs (col' - col)).

(** The number of king steps between two squares. *)
Definition distance (row col row' col' : Z) : nat :=
  Z.to_nat (Z.max (Z.abs (row' - row)) (Z.abs (col' - col))).

(** One of the [n] squares [(row, col)], [(row + dRow, col + dCol)], ...
    holds a piece. *)
Fixpoint occupiedAlong (scene : Scene) (row col dRow dCol : Z) (n : nat)
    : bool :=
  match n with
  | O => false
  | S n' =>
      match pieceAt scene row col with Some _ => true | None => false end
      || occupiedAlong scene (row + dRow) (col + dCol) dRow dCol n'
  end.

(** A piece stands strictly between two aligned squares. *)
Definition pathOccupied (scene : Scene) (row col row' col' : Z) : bool :=
  occupiedAlong scene
    (row + direction row row') (col + direction col col')
    (direction row row') (direction col col')
    (distance row col row' col' - 1).

(** Fuel that lets a legality query return: the distance to walk. *)
Definition enoughFuel (piece : option ChessPiece) (row col : Z) : nat :=
  match piece with
  | Some p => distance (currentRowOf p) (currentColOf p) row col
  | None => O
  end.

(** [piece] stands on square [(row, col)]. *)
Definition standsOn (piece : ChessPiece) (row col : Z) : bool :=
  (currentRowOf piece =? row) && (currentColOf piece =? col).

(** The position of [piece] is the corner of a square of the grid. *)
Definition onGrid (piece : ChessPiece) : bool :=
  (pos_x piece =? 50 * currentColOf piece)
  && (pos_y piece =? 50 * currentRowOf piece).

(** No two pieces of the scene stand on the same square. *)
Fixpoint distinctSquares (scene : Scene) : bool :=
  match scene with
  | [] => true
  | p :: rest =>
      forallb (fun q => negb (standsOn q (currentRowOf p) (currentColOf p)))
              rest
      && distinctSquares rest
  end.

(** The scenes of the game: pieces on the grid, a square holds 0 or 1
    piece. *)
Definition wellFormed (scene : Scene) : bool :=
  forallb onGrid scene && distinctSquares scene.

(** [piece] after [setPos(col * 50, row * 50)]. *)
Definition moved (piece : ChessPiece) (row col : Z) : ChessPiece :=
  mkChessPiece (col * 50) (row * 50) (pieceType piece) (isWhitePiece piece).

(** The Queen that [promotePawn] creates for [piece]. *)
Definition promoted (piece : ChessPiece) (row col : Z) : ChessPiece :=
  mkChessPiece (col * 50) (row * 50) Queen (isWhitePiece piece).

(** The piece that a legal move of [piece] leaves on the destination. *)
Definition arrival (piece : ChessPiece) (row col : Z) : ChessPiece :=
  if isPawnPromotion piece row then promoted piece row col
  else moved piece row col.

(** The scene after the effects of a legal move of [piece]: the body of
    the successful branch of [movePiece]. *)
Definition applied (scene : Scene) (piece : ChessPiece) (row col : Z)
    : Scene :=
  let scene := capture scene piece row col in
  if isPawnPromotion piece row then promotePawn scene piece row col
  else setPos scene piece (col * 50) (row * 50).

(** The one-square steps of the King. *)
Definition kingStep (piece : ChessPiece) (row col : Z) : bool :=
  (Z.abs (row - currentRowOf piece) <=? 1)
  && (Z.abs (col - currentColOf piece) <=? 1)
  && (Z.abs (row - currentRowOf piece) + Z.abs (col - currentColOf piece)
      >? 0).

(** The color of the piece on a square, if any: all that the legality
    test can tell of the pieces other than the mover. *)
Definition colorAt (scene : Scene) (row col : Z) : option bool :=
  match pieceAt scene row col with
  | Some d => Some (isWhitePiece d)
  | None => None
  end.

(** The number of pieces of one color. *)
Definition countColor (scene : Scene) (white : bool) : nat :=
  length (filter (fun q => Bool.eqb (isWhitePiece q) white) scene).

(** ** [ChessBoard::drawBoard] *)

Inductive SquareColor : Set := lightGray | darkGray.

(** The rectangle that [drawBoard] adds for row [i] and column [j]: its
    corner and its brush. *)
Definition boardRect (i j : Z) : Z * Z * SquareColor :=
  (j * 50, i * 50,
   if Z.rem (i + j) 2 =? 0 then lightGray else darkGray).

Definition drawBoard : list (Z * Z * SquareColor) :=
  flat_map (fun i => map (fun j => boardRect i j) [0;1;2;3;4;5;6;7])
           [0;1;2;3;4;5;6;7].

(** The brush of the square [(row, col)]. *)
Definition squareColor (row col : Z) : SquareColor :=
  snd (boardRect row col).

(** The scenes of a game: the starting position, and what [movePiece]
    makes of such a scene when it is asked to move one of its pieces (as
    [mousePressEvent] asks for the selected piece). *)
Inductive reachable : Scene -> Prop :=
  | reachable_start : reachable startScene
  | reachable_move (fuel : nat) (scene : Scene) (p : ChessPiece)
      (row col : Z) (done : bool) (scene' : Scene) :
      reachable scene ->
      In p scene ->
      movePiece fuel scene (Some p) row col = Some (done, scene') ->
      reachable scene'.

(** No Pawn stands on row 0 or on row 7. *)
Definition noPawnOnEndRows (scene : Scene) : bool :=
  forallb (fun q => negb (PieceType_eqb (pieceType q) Pawn
                          && ((currentRowOf q =? 0) || (currentRowOf q =? 7))))
          scene.

(** ** The legality test on a scene that holds items of any kind *)

(** All that the legality test reads of the scene is
    [dynamic_cast<ChessPiece*>(scene->itemAt(x, y, QTransform()))]: the
    topmost item at a point if it is a piece, and nothing otherwise.  With
    this hit test as a parameter the scene may hold any items, the
    highlight rectangles of [highlightValidMoves] included; a piece that
    lies under a rectangle is then not shown. *)
Definition HitTest : Type := Z -> Z -> option ChessPiece.

(** [isPathBlocked], its loop first. *)
Fixpoint isPathBlocked_loopOn (hit : HitTest) (fuel : nat)
    (currentRow currentCol endRow endCol rowDirection colDirection : Z)
    : option bool :=
  match fuel with
  | O => None
  | S fuel' =>
      if negb (currentRow =? endRow) || negb (currentCol =? endCol) then
        match hit (currentCol * 50 + 25) (currentRow * 50 + 25) with
        | Some _ => Some true
        | None =>
            isPathBlocked_loopOn hit fuel'
              (currentRow + rowDirection) (currentCol + colDirection)
              endRow endCol rowDirection colDirection
        end
      else Some false
  end.

Definition isPathBlockedOn (hit : HitTest) (fuel : nat)
    (startRow startCol endRow endCol : Z) : option bool :=
  if (startRow =? endRow) && (startCol =? endCol) then Some false
  else
    let rowDirection :=
      if endRow >? startRow then 1 else if endRow <? startRow then -1 else 0 in
    let colDirection :=
      if endCol >? startCol then 1 else if endCol <? startCol then -1 else 0 in
    isPathBlocked_loopOn hit fuel
      (startRow + rowDirection) (startCol + colDirection)
      endRow endCol rowDirection colDirection.

(** [isValidMoveWhitePawn]. *)
Definition isValidMoveWhitePawnOn (hit : HitTest) (fuel : nat)
    (piece : option ChessPiece) (newRow newCol : Z) : option bool :=
  match piece with
  | None => Some false
  | Some p =>
      let currentRow := currentRowOf p in
      let currentCol := currentColOf p in
      let rowDiff := newRow - currentRow in
      let colDiff := newCol - currentCol in
      let destinationPiece := hit (newCol * 50 + 25) (newRow * 50 + 25) in
      forward <-
        (if (colDiff =? 0)
            && match destinationPiece with None => true | Some _ => false end
         then
           if rowDiff =? 1 then Some true
           else
             andThen ((rowDiff =? 2) && (currentRow =? 6))
               (notM (isPathBlockedOn hit fuel
                        currentRow currentCol newRow newCol))
         else Some false) ;;
      if forward then Some true
      else
        if (Z.abs colDiff =? 1) && (rowDiff =? -1) then
          match hit (newCol * 50 + 25) (newRow * 50 + 25) with
          | Some d =>
              if negb (Bool.eqb (isWhitePiece d) (isWhitePiece p))
              then Some true
              else Some false
          | None => Some false
          end
        else Some false
  end.

(** [isValidMoveBlackPawn]. *)
Definition isValidMoveBlackPawnOn (hit : HitTest) (fuel : nat)
    (piece : option ChessPiece) (newRow newCol : Z) : option bool :=
  match piece with
  | None => Some false
  | Some p =>
      let currentRow := currentRowOf p in
      let currentCol := currentColOf p in
      let rowDiff := newRow - currentRow in
      let colDiff := newCol - currentCol in
      let destinationPiece := hit (newCol * 50 + 25) (newRow * 50 + 25) in
      forward <-
        (if (colDiff =? 0)
            && match destinationPiece with None => true | Some _ => false end
         then
           if rowDiff =? -1 then Some true
           else
             andThen ((rowDiff =? -2) && (currentRow =? 1))
               (notM (isPathBlockedOn hit fuel
                        currentRow currentCol newRow newCol))
         else Some false) ;;
      if forward then Some true
      else
        Some ((Z.abs colDiff =? 1) && (rowDiff =? 1)
              && match destinationPiece with
                 | Some d => negb (Bool.eqb (isWhitePiece d) (isWhitePiece p))
                 | None => false
                 end)
  end.

(** [isValidMove]. *)
Definition isValidMoveOn (hit : HitTest) (fuel : nat)
    (piece : option ChessPiece) (newRow newCol : Z) : option bool :=
  match piece with
  | None => Some false
  | Some p =>
      let currentRow := currentRowOf p in
      let currentCol := currentColOf p in
      if (newRow =? currentRow) && (newCol =? currentCol) then Some false
      else
        let rowDiff := newRow - currentRow in
        let colDiff := newCol - currentCol in
        let absRowDiff := Z.abs rowDiff in
        let absColDiff := Z.abs colDiff in
        let destinationPiece := hit (newCol * 50 + 25) (newRow * 50 + 25) in
        if match destinationPiece with
           | Some d => Bool.eqb (isWhitePiece d) (isWhitePiece p)
           | None => false
           end
        then Some false
        else
          match pieceType p with
          | Pawn =>
              if isWhitePiece p
              then isValidMoveWhitePawnOn hit fuel piece newRow newCol
              else isValidMoveBlackPawnOn hit fuel piece newRow newCol
          | Rook =>
              if negb (newRow =? currentRow) && negb (newCol =? currentCol)
              then Some false
              else
                blocked <-
                  andThen ((rowDiff >? 1) || (colDiff >? 1))
                    (isPathBlockedOn hit fuel
                       currentRow currentCol newRow newCol) ;;
                if blocked then Some false else Some true
          | Knight =>
              Some ((absRowDiff =? 2) && (absColDiff =? 1)
                    || (absRowDiff =? 1) && (absColDiff =? 2))
          | Bishop =>
              andThen (absRowDiff =? absColDiff)
                (notM (isPathBlockedOn hit fuel
                         currentRow currentCol newRow newCol))
          | Queen =>
              andThen ((absRowDiff =? absColDiff)
                       || (rowDiff =? 0) || (colDiff =? 0))
                (notM (isPathBlockedOn hit fuel
                         currentRow currentCol newRow newCol))
          | King =>
              andThen ((absRowDiff <=? 1) && (absColDiff <=? 1)
                       && (absRowDiff + absColDiff >? 0))
                (notM (isPathBlockedOn hit fuel
                         currentRow currentCol newRow newCol))
          end
  end.

(** A scene with its rectangles: a piece, or a 50x50 rectangle such as
    [highlightValidMoves] adds with
    [new QGraphicsRectItem(col * 50, row * 50, 50, 50)]; topmost first. *)
Inductive SceneItem : Set :=
  | pieceItem (piece : ChessPiece)
  | rectItem (x y : Z).

Definition itemContains (item : SceneItem) (x y : Z) : bool :=
  match item with
  | pieceItem p => shapeContains p x y
  | rectItem rx ry =>
      (rx <=? x) && (x <? rx + 50) && (ry <=? y) && (y <? ry + 50)
  end.

(** The hit test of such a scene: the topmost item at the point, cast
    to a piece. *)
Definition hitTest (items : list SceneItem) : HitTest :=
  fun x y =>
    match find (fun item => itemContains item x y) items with
    | Some (pieceItem p) => Some p
    | Some (rectItem _ _) => None
    | None => None
    end.

(** The piece that the hit test shows on a square: the topmost item at
    its centre, if that is a piece. *)
Definition shownAt (hit : HitTest) (row col : Z) : option ChessPiece :=
  hit (col * 50 + 25) (row * 50 + 25).

Definition sameColorShown (hit : HitTest) (piece : ChessPiece)
    (row col : Z) : bool :=
  match shownAt hit row col with
  | Some d => Bool.eqb (isWhitePiece d) (isWhitePiece piece)
  | None => false
  end.

Definition otherColorShown (hit : HitTest) (piece : ChessPiece)
    (row col : Z) : bool :=
  match shownAt hit row col with
  | Some d => negb (Bool.eqb (isWhitePiece d) (isWhitePiece piece))
  | None => false
  end.

Fixpoint shownAlong (hit : HitTest) (row col dRow dCol : Z) (n : nat)
    : bool :=
  match n with
  | O => false
  | S n' =>
      match shownAt hit row col with Some _ => true | None => false end
      || shownAlong hit (row + dRow) (col + dCol) dRow dCol n'
  end.

(** The hit test shows a piece strictly between two squares. *)
Definition pathShown (hit : HitTest) (row col row' col' : Z) : bool :=
  shownAlong hit
    (row + direction row row') (col + direction col col')
    (direction row row') (direction col col')
    (distance row col row' col' - 1).

(** The hit test shows no piece strictly between two squares. *)
Definition pathClearOn (hit : HitTest) (row col row' col' : Z) : Prop :=
  forall k : Z,
    0 < k < Z.of_nat (distance row col row' col') ->
    shownAt hit (row + k * direction row row')
                (col + k * direction col col') = None.

(** * Basic facts *)

Lemma PieceType_eqb_eq (a b : PieceType) :
  PieceType_eqb a b = true <-> a = b.
Proof.
  destruct a, b; simpl; split; intro H; try reflexivity; discriminate H.
Qed.

Lemma ChessPiece_eqb_eq (p q : ChessPiece) :
  ChessPiece_eqb p q = true <-> p = q.
Proof.
  unfold ChessPiece_eqb. destruct p as [x y t w], q as [x' y' t' w']. simpl.
  rewrite !andb_true_iff, !Z.eqb_eq, PieceType_eqb_eq, Bool.eqb_true_iff.
  split.
  - intros [[[-> ->] ->] ->]. reflexivity.
  - intro H. injection H as -> -> -> ->. auto.
Qed.

Lemma ChessPiece_eqb_refl (p : ChessPiece) : ChessPiece_eqb p p = true.
Proof. apply ChessPiece_eqb_eq. reflexivity. Qed.

Lemma ChessPiece_eqb_neq (p q : ChessPiece) :
  ChessPiece_eqb p q = false <-> p <> q.
Proof.
  rewrite <- ChessPiece_eqb_eq. destruct (ChessPiece_eqb p q); split;
    intro H; try reflexivity; try discriminate; try (intro; discriminate).
  exfalso. apply H. reflexivity.
Qed.

(** The two tests that come before the dispatch on the kind of piece. *)
Lemma isValidMove_unfold (fuel : nat) (scene : Scene) (p : ChessPiece)
    (newRow newCol : Z) :
  isValidMove fuel scene (Some p) newRow newCol =
  if (newRow =? currentRowOf p) && (newCol =? currentColOf p) then Some false
  else if sameColorAt scene p newRow newCol then Some false
  else
    match pieceType p with
    | Pawn =>
        if isWhitePiece p
        then isValidMoveWhitePawn fuel scene (Some p) newRow newCol
        else isValidMoveBlackPawn fuel scene (Some p) newRow newCol
    | Rook =>
        if negb (newRow =? currentRowOf p) && negb (newCol =? currentColOf p)
        then Some false
        else
          blocked <-
            andThen ((newRow - currentRowOf p >? 1)
                     || (newCol - currentColOf p >? 1))
              (isPathBlocked fuel scene
                 (currentRowOf p) (currentColOf p) newRow newCol) ;;
          if blocked then Some false else Some true
    | Knight => Some (knightOffset p newRow newCol)
    | Bishop =>
        andThen (Z.abs (newRow - currentRowOf p)
                 =? Z.abs (newCol - currentColOf p))
          (notM (isPathBlocked fuel scene
                   (currentRowOf p) (currentColOf p) newRow newCol))
    | Queen =>
        andThen ((Z.abs (newRow - currentRowOf p)
                  =? Z.abs (newCol - currentColOf p))
                 || (newRow - currentRowOf p =? 0)
                 || (newCol - currentColOf p =? 0))
          (notM (isPathBlocked fuel scene
                   (currentRowOf p) (currentColOf p) newRow newCol))
    | King =>
        andThen ((Z.abs (newRow - currentRowOf p) <=? 1)
                 && (Z.abs (newCol - currentColOf p) <=? 1)
                 && (Z.abs (newRow - currentRowOf p)
                     + Z.abs (newCol - currentColOf p) >? 0))
          (notM (isPathBlocked fuel scene
                   (currentRowOf p) (currentColOf p) newRow newCol))
    end.
Proof. reflexivity. Qed.

(** * Null moves and friendly fire *)

(** C6: for every scene and every piece of any kind, the legality test
    rejects the square the piece stands on, whatever the fuel: the test
    is made before any path is walked. *)
Theorem C6_null_move_rejected (fuel : nat) (scene : Scene) (p : ChessPiece) :
  isValidMove fuel scene (Some p) (currentRowOf p) (currentColOf p)
  = Some false.
Proof.
  rewrite isValidMove_unfold. now rewrite !Z.eqb_refl.
Qed.

(** C5: for every scene, every piece and every destination on which a
    piece of the mover's color stands, the legality test answers false;
    the answer is given for every kind of piece alike, by the one test
    made before the dispatch (no path is walked: any fuel will do). *)
Theorem C5_same_color_destination_rejected
    (fuel : nat) (scene : Scene) (p d : ChessPiece) (row col : Z) :
  pieceAt scene row col = Some d ->
  isWhitePiece d = isWhitePiece p ->
  isValidMove fuel scene (Some p) row col = Some false.
Proof.
  intros Hd Hc. rewrite isValidMove_unfold.
  destruct ((row =? currentRowOf p) && (col =? currentColOf p));
    [reflexivity|].
  unfold sameColorAt. rewrite Hd, Hc, Bool.eqb_reflx. reflexivity.
Qed.

Lemma C5_witness :
  isValidMove 0 startScene (Some (mkChessPiece 0 0 Rook true)) 0 1
  = Some false.
Proof.
  apply (C5_same_color_destination_rejected 0 startScene
           (mkChessPiece 0 0 Rook true) (mkChessPiece 50 0 Knight true) 0 1);
    reflexivity.
Defined.

(** * The Knight *)

Lemma knight_isValidMove (fuel : nat) (scene : Scene) (p : ChessPiece)
    (row col : Z) :
  pieceType p = Knight ->
  isValidMove fuel scene (Some p) row col
  = Some (knightOffset p row col && negb (sameColorAt scene p row col)).
Proof.
  intro Hk. rewrite isValidMove_unfold, Hk.
  destruct ((row =? currentRowOf p) && (col =? currentColOf p)) eqn:Hnull.
  - apply andb_true_iff in Hnull. destruct Hnull as [Hr Hc].
    apply Z.eqb_eq in Hr, Hc. subst row col.
    unfold knightOffset. rewrite !Z.sub_diag. reflexivity.
  - destruct (sameColorAt scene p row col).
    + now rewrite andb_false_r.
    + now rewrite andb_true_r.
Qed.

(** C4, amended: for every scene and every Knight, the legality test is
    true for exactly the destinations at an L-shaped offset from the
    square of the Knight on which no piece of its own color stands.  The
    answer needs no fuel (no path is walked) and is the same in any two
    scenes that agree on the destination square, so that the occupancy of
    every other square is irrelevant; the highlighted squares are those of
    the 8x8 board which pass this test. *)
Theorem C4_knight_L_shape_and_no_friend
    (fuel : nat) (scene : Scene) (p : ChessPiece) (row col : Z) :
  pieceType p = Knight ->
  (isValidMove fuel scene (Some p) row col = Some true
   <-> knightOffset p row col = true /\ sameColorAt scene p row col = false)
  /\ (forall scene' : Scene,
        pieceAt scene' row col = pieceAt scene row col ->
        isValidMove fuel scene' (Some p) row col
        = isValidMove fuel scene (Some p) row col)
  /\ highlightValidMoves fuel scene p
     = filter (fun sq => knightOffset p (fst sq) (snd sq)
                         && negb (sameColorAt scene p (fst sq) (snd sq)))
              boardSquares.
Proof.
  intro Hk. split; [|split].
  - rewrite (knight_isValidMove fuel scene p row col Hk).
    split.
    + intro H. injection H as H. apply andb_true_iff in H.
      destruct H as [H1 H2]. apply negb_true_iff in H2. auto.
    + intros [H1 H2]. now rewrite H1, H2.
  - intros scene' Hsame. rewrite !knight_isValidMove by assumption.
    unfold sameColorAt. now rewrite Hsame.
  - unfold highlightValidMoves. apply filter_ext. intros [r c]. cbn [fst snd].
    rewrite knight_isValidMove by assumption.
    now destruct (knightOffset p r c && negb (sameColorAt scene p r c)).
Qed.

Lemma C4_witness :
  isValidMove 0 startScene (Some (mkChessPiece 50 0 Knight true)) 2 2
  = Some true.
Proof.
  apply (proj1 (C4_knight_L_shape_and_no_friend 0 startScene
                  (mkChessPiece 50 0 Knight true) 2 2 eq_refl)).
  split; reflexivity.
Defined.

(** C4 as first stated fails: in the starting position the Knight on
    (0,1) is at an L-shaped offset from (1,3), where a Pawn of its own
    color stands, and the move is refused. *)
Lemma C4_counterexample :
  pieceAt startScene 0 1 = Some (mkChessPiece 50 0 Knight true)
  /\ knightOffset (mkChessPiece 50 0 Knight true) 1 3 = true
  /\ isValidMove 8 startScene (Some (mkChessPiece 50 0 Knight true)) 1 3
     = Some false.
Proof. repeat split. Qed.

(** * The White Pawn *)

Lemma whitePawn_true_inv (fuel : nat) (scene : Scene) (p : ChessPiece)
    (row col : Z) :
  isValidMoveWhitePawn fuel scene (Some p) row col = Some true ->
  (col = currentColOf p /\ pieceAt scene row col = None
   /\ (row - currentRowOf p = 1
       \/ (row - currentRowOf p = 2 /\ currentRowOf p = 6)))
  \/ (Z.abs (col - currentColOf p) = 1 /\ row - currentRowOf p = -1
      /\ otherColorAt scene p row col = true).
Proof.
  unfold isValidMoveWhitePawn, otherColorAt, pieceAt.
  set (dest := itemAt scene (col * 50 + 25) (row * 50 + 25)).
  destruct ((col - currentColOf p =? 0)
            && match dest with None => true | Some _ => false end) eqn:Hfwd.
  - apply andb_true_iff in Hfwd. destruct Hfwd as [Hc Hd].
    apply Z.eqb_eq in Hc. assert (col = currentColOf p) as Hcol by lia.
    destruct dest as [d|]; [discriminate|].
    destruct (row - currentRowOf p =? 1) eqn:H1.
    + intros _. left. apply Z.eqb_eq in H1. auto.
    + destruct ((row - currentRowOf p =? 2) && (currentRowOf p =? 6)) eqn:H2.
      * intros _. left. apply andb_true_iff in H2. destruct H2 as [H2 H6].
        apply Z.eqb_eq in H2, H6. auto.
      * simpl. rewrite Hc. simpl.
        replace (Z.abs (col - currentColOf p) =? 1) with false; [discriminate|].
        symmetry. apply Z.eqb_neq. lia.
  - simpl.
    destruct ((Z.abs (col - currentColOf p) =? 1)
              && (row - currentRowOf p =? -1)) eqn:Hcap; [|discriminate].
    apply andb_true_iff in Hcap. destruct Hcap as [Hc Hr].
    apply Z.eqb_eq in Hc, Hr.
    destruct dest as [d|]; [|discriminate].
    destruct (negb (Bool.eqb (isWhitePiece d) (isWhitePiece p))) eqn:Hopp;
      [|discriminate].
    intros _. right. auto.
Qed.

(** What a legal move of a White Pawn looks like. *)
Lemma whitePawn_legal_inv (fuel : nat) (scene : Scene) (p : ChessPiece)
    (row col : Z) :
  pieceType p = Pawn ->
  isWhitePiece p = true ->
  isValidMove fuel scene (Some p) row col = Some true ->
  (col = currentColOf p /\ pieceAt scene row col = None
   /\ (row - currentRowOf p = 1
       \/ (row - currentRowOf p = 2 /\ currentRowOf p = 6)))
  \/ (Z.abs (col - currentColOf p) = 1 /\ row - currentRowOf p = -1
      /\ otherColorAt scene p row col = true).
Proof.
  intros Hk Hw. rewrite isValidMove_unfold, Hk, Hw.
  destruct ((row =? currentRowOf p) && (col =? currentColOf p));
    [discriminate|].
  destruct (sameColorAt scene p row col); [discriminate|].
  apply whitePawn_true_inv.
Qed.

(** C9: for every scene and every White Pawn, a legal move that stays in
    the column of the Pawn goes to an empty square and has row delta +1,
    or +2 from row 6; every other legal move is a diagonal capture of a
    piece of the other color with row delta -1.  The White Pawn of the
    code captures in the direction opposite to its forward direction. *)
Theorem C9_white_pawn_forward_and_capture_directions
    (fuel : nat) (scene : Scene) (p : ChessPiece) (row col : Z) :
  pieceType p = Pawn ->
  isWhitePiece p = true ->
  isValidMove fuel scene (Some p) row col = Some true ->
  (col = currentColOf p /\ pieceAt scene row col = None
   /\ (row - currentRowOf p = 1
       \/ (row - currentRowOf p = 2 /\ currentRowOf p = 6)))
  \/ (Z.abs (col - currentColOf p) = 1 /\ row - currentRowOf p = -1
      /\ otherColorAt scene p row col = true).
Proof. exact (whitePawn_legal_inv fuel scene p row col). Qed.

Lemma C9_witness :
  (4 = currentColOf (mkChessPiece 200 50 Pawn true)
   /\ pieceAt startScene 2 4 = None
   /\ (2 - currentRowOf (mkChessPiece 200 50 Pawn true) = 1
       \/ (2 - currentRowOf (mkChessPiece 200 50 Pawn true) = 2
           /\ currentRowOf (mkChessPiece 200 50 Pawn true) = 6)))
  \/ (Z.abs (4 - currentColOf (mkChessPiece 200 50 Pawn true)) = 1
      /\ 2 - currentRowOf (mkChessPiece 200 50 Pawn true) = -1
      /\ otherColorAt startScene (mkChessPiece 200 50 Pawn true) 2 4 = true).
Proof.
  apply (C9_white_pawn_forward_and_capture_directions 0 startScene
           (mkChessPiece 200 50 Pawn true) 2 4); reflexivity.
Defined.

(** The three shapes of move of C9 all occur: one square forward, two
    squares forward from row 6 (which leaves the board), and the capture
    one row back. *)
Example white_pawn_moves_occur :
  isValidMove 0 startScene (Some (mkChessPiece 200 50 Pawn true)) 2 4
  = Some true
  /\ isValidMove 2 [mkChessPiece 200 300 Pawn true]
       (Some (mkChessPiece 200 300 Pawn true)) 8 4 = Some true
  /\ isValidMove 0 [mkChessPiece 200 100 Pawn true;
                    mkChessPiece 150 50 Rook false]
       (Some (mkChessPiece 200 100 Pawn true)) 1 3 = Some true
  /\ isValidMove 0 [mkChessPiece 200 100 Pawn true;
                    mkChessPiece 150 150 Rook false]
       (Some (mkChessPiece 200 100 Pawn true)) 3 3 = Some false.
Proof. repeat split. Qed.

(** * Walking a path *)

Lemma isPathBlocked_unfold (fuel : nat) (scene : Scene)
    (startRow startCol endRow endCol : Z) :
  isPathBlocked fuel scene startRow startCol endRow endCol =
  if (startRow =? endRow) && (startCol =? endCol) then Some false
  else
    isPathBlocked_loop fuel scene
      (startRow + direction startRow endRow)
      (startCol + direction startCol endCol)
      endRow endCol (direction startRow endRow) (direction startCol endCol).
Proof. reflexivity. Qed.

(** With [n] squares left before the end and more than [n] units of fuel,
    the loop returns, and says whether one of them is occupied. *)
Lemma isPathBlocked_loop_spec (scene : Scene) (dRow dCol : Z) (n : nat) :
  dRow <> 0 \/ dCol <> 0 ->
  forall (fuel : nat) (row col endRow endCol : Z),
    endRow = row + Z.of_nat n * dRow ->
    endCol = col + Z.of_nat n * dCol ->
    (n < fuel)%nat ->
    isPathBlocked_loop fuel scene row col endRow endCol dRow dCol
    = Some (occupiedAlong scene row col dRow dCol n).
Proof.
  intro Hd. induction n as [|n IH]; intros fuel row col endRow endCol Hr Hc Hf.
  - destruct fuel as [|fuel]; [lia|]. simpl.
    replace (row =? endRow) with true by (symmetry; apply Z.eqb_eq; lia).
    replace (col =? endCol) with true by (symmetry; apply Z.eqb_eq; lia).
    reflexivity.
  - destruct fuel as [|fuel]; [lia|].
    cbn [isPathBlocked_loop occupiedAlong].
    replace (negb (row =? endRow) || negb (col =? endCol)) with true.
    + fold (pieceAt scene row col).
      destruct (pieceAt scene row col) as [d|]; [reflexivity|].
      cbn [orb]. apply IH; lia.
    + symmetry. apply orb_true_iff.
      destruct Hd as [Hd|Hd]; [left|right];
        apply negb_true_iff, Z.eqb_neq; nia.
Qed.

Lemma aligned_steps (row col row' col' : Z) :
  aligned row col row' col' = true ->
  row' = row + Z.of_nat (distance row col row' col') * direction row row'
  /\ col' = col + Z.of_nat (distance row col row' col') * direction col col'.
Proof.
  unfold aligned, distance, direction. intro H.
  apply orb_true_iff in H. destruct H as [H|H];
    [apply orb_true_iff in H; destruct H as [H|H]|];
    apply Z.eqb_eq in H;
    destruct (row' >? row) eqn:E1; destruct (row' <? row) eqn:E2;
    destruct (col' >? col) eqn:E3; destruct (col' <? col) eqn:E4;
    lia.
Qed.

Lemma direction_nonzero (row col row' col' : Z) :
  (row =? row') && (col =? col') = false ->
  direction row row' <> 0 \/ direction col col' <> 0.
Proof.
  unfold direction. intro H. apply andb_false_iff in H.
  destruct H as [H|H]; apply Z.eqb_neq in H; [left|right].
  - destruct (row' >? row) eqn:E1; destruct (row' <? row) eqn:E2; lia.
  - destruct (col' >? col) eqn:E1; destruct (col' <? col) eqn:E2; lia.
Qed.

Lemma distance_pos (row col row' col' : Z) :
  (row =? row') && (col =? col') = false ->
  (0 < distance row col row' col')%nat.
Proof.
  unfold distance. intro H. apply andb_false_iff in H.
  destruct H as [H|H]; apply Z.eqb_neq in H; lia.
Qed.

(** On aligned squares, fuel for the distance makes [isPathBlocked]
    return, with the occupancy of the squares strictly in between. *)
Lemma isPathBlocked_spec (fuel : nat) (scene : Scene)
    (row col row' col' : Z) :
  aligned row col row' col' = true ->
  (distance row col row' col' <= fuel)%nat ->
  isPathBlocked fuel scene row col row' col'
  = Some (if (row =? row') && (col =? col') then false
          else pathOccupied scene row col row' col').
Proof.
  intros Ha Hf. rewrite isPathBlocked_unfold.
  destruct ((row =? row') && (col =? col')) eqn:Hsame; [reflexivity|].
  pose proof (aligned_steps _ _ _ _ Ha) as [Hr Hc].
  pose proof (distance_pos _ _ _ _ Hsame) as Hpos.
  unfold pathOccupied.
  assert (Z.of_nat (distance row col row' col' - 1)
          = Z.of_nat (distance row col row' col') - 1) as Hpred by lia.
  apply isPathBlocked_loop_spec.
  - now apply direction_nonzero.
  - rewrite Hpred. rewrite Hr at 1. ring.
  - rewrite Hpred. rewrite Hc at 1. ring.
  - lia.
Qed.

(** Off the lines the walk never meets its end: on the empty board, from
    (0,0) towards (1,2), no amount of fuel is enough. *)
Lemma isPathBlocked_loop_diverges (fuel : nat) (k : Z) :
  isPathBlocked_loop fuel [] k k 1 2 1 1 = None.
Proof.
  revert k. induction fuel as [|fuel IH]; intro k; [reflexivity|].
  cbn [isPathBlocked_loop].
  replace (negb (k =? 1) || negb (k =? 2)) with true.
  - cbn. apply IH.
  - symmetry. destruct (Z.eqb_spec k 1); [subst; reflexivity|].
    reflexivity.
Qed.

Lemma isPathBlocked_unaligned_diverges (fuel : nat) :
  isPathBlocked fuel [] 0 0 1 2 = None.
Proof.
  rewrite isPathBlocked_unfold. cbn -[isPathBlocked_loop].
  apply isPathBlocked_loop_diverges.
Qed.

(** * Termination of the legality test *)

Ltac bool_to_prop :=
  repeat match goal with
  | H : _ && _ = true |- _ => apply andb_true_iff in H; destruct H
  | H : _ || _ = false |- _ => apply orb_false_iff in H; destruct H
  | H : negb _ = true |- _ => apply negb_true_iff in H
  | H : negb _ = false |- _ => apply negb_false_iff in H
  | H : (_ =? _) = true |- _ => apply Z.eqb_eq in H
  | H : (_ =? _) = false |- _ => apply Z.eqb_neq in H
  | H : (_ <=? _) = true |- _ => apply Z.leb_le in H
  | H : (_ <=? _) = false |- _ => apply Z.leb_gt in H
  | H : (_ >? _) = true |- _ => apply Z.gtb_lt in H
  | H : (_ >? _) = false |- _ => rewrite Z.gtb_ltb in H; apply Z.ltb_ge in H
  end.

Lemma aligned_iff (row col row' col' : Z) :
  aligned row col row' col' = true
  <-> row' = row \/ col' = col \/ Z.abs (row' - row) = Z.abs (col' - col).
Proof.
  unfold aligned. rewrite !orb_true_iff, !Z.eqb_eq. tauto.
Qed.

Lemma bind_None {A B : Type} (m : option A) (k : A -> option B) :
  bind m k = None -> m = None \/ exists a, m = Some a /\ k a = None.
Proof.
  destruct m as [a|]; simpl; intro H; [right; exists a; auto | left; auto].
Qed.

Lemma andThen_None (c : bool) (call : option bool) :
  andThen c call = None -> c = true /\ call = None.
Proof. destruct c; simpl; intro H; [auto | discriminate]. Qed.

Lemma notM_None (call : option bool) : notM call = None -> call = None.
Proof. destruct call as [b|]; simpl; intro H; [discriminate | auto]. Qed.

Lemma whitePawn_None_inv (fuel : nat) (scene : Scene) (p : ChessPiece)
    (row col : Z) :
  isValidMoveWhitePawn fuel scene (Some p) row col = None ->
  col = currentColOf p
  /\ isPathBlocked fuel scene (currentRowOf p) (currentColOf p) row col
     = None.
Proof.
  unfold isValidMoveWhitePawn. intro H.
  apply bind_None in H. destruct H as [H|[b [_ H]]].
  - destruct ((col - currentColOf p =? 0)
              && match itemAt scene (col * 50 + 25) (row * 50 + 25) with
                 | None => true | Some _ => false end) eqn:Hfwd;
      [|discriminate].
    destruct (row - currentRowOf p =? 1); [discriminate|].
    apply andThen_None in H. destruct H as [_ H]. apply notM_None in H.
    bool_to_prop. split; [lia | assumption].
  - destruct b; [discriminate|].
    destruct ((Z.abs (col - currentColOf p) =? 1)
              && (row - currentRowOf p =? -1)); [|discriminate].
    destruct (itemAt scene (col * 50 + 25) (row * 50 + 25)) as [d|];
      [|discriminate].
    destruct (negb (Bool.eqb (isWhitePiece d) (isWhitePiece p)));
      discriminate.
Qed.

Lemma blackPawn_None_inv (fuel : nat) (scene : Scene) (p : ChessPiece)
    (row col : Z) :
  isValidMoveBlackPawn fuel scene (Some p) row col = None ->
  col = currentColOf p
  /\ isPathBlocked fuel scene (currentRowOf p) (currentColOf p) row col
     = None.
Proof.
  unfold isValidMoveBlackPawn. intro H.
  apply bind_None in H. destruct H as [H|[b [_ H]]].
  - destruct ((col - currentColOf p =? 0)
              && match itemAt scene (col * 50 + 25) (row * 50 + 25) with
                 | None => true | Some _ => false end) eqn:Hfwd;
      [|discriminate].
    destruct (row - currentRowOf p =? -1); [discriminate|].
    apply andThen_None in H. destruct H as [_ H]. apply notM_None in H.
    bool_to_prop. split; [lia | assumption].
  - destruct b; discriminate.
Qed.

(** A legality query that does not return is waiting for its call of
    [isPathBlocked], and that call is on two distinct aligned squares. *)
Lemma isValidMove_None_inv (fuel : nat) (scene : Scene) (p : ChessPiece)
    (row col : Z) :
  isValidMove fuel scene (Some p) row col = None ->
  (row =? currentRowOf p) && (col =? currentColOf p) = false
  /\ aligned (currentRowOf p) (currentColOf p) row col = true
  /\ isPathBlocked fuel scene (currentRowOf p) (currentColOf p) row col
     = None.
Proof.
  rewrite isValidMove_unfold.
  destruct ((row =? currentRowOf p) && (col =? currentColOf p)) eqn:Hnull;
    [discriminate|].
  destruct (sameColorAt scene p row col); [discriminate|].
  intro H. split; [reflexivity|]. rewrite aligned_iff.
  destruct (pieceType p).
  - destruct (isWhitePiece p);
      [apply whitePawn_None_inv in H | apply blackPawn_None_inv in H];
      destruct H as [Hc H]; auto.
  - destruct (negb (row =? currentRowOf p) && negb (col =? currentColOf p))
      eqn:Hstraight; [discriminate|].
    apply bind_None in H. destruct H as [H|[b [_ H]]].
    + apply andThen_None in H. destruct H as [_ H]. split; [|assumption].
      apply andb_false_iff in Hstraight.
      destruct Hstraight as [Hs|Hs]; bool_to_prop; auto.
    + destruct b; discriminate.
  - discriminate.
  - apply andThen_None in H. destruct H as [Hg H]. apply notM_None in H.
    bool_to_prop. auto.
  - apply andThen_None in H. destruct H as [Hg H]. apply notM_None in H.
    split; [|assumption].
    apply orb_true_iff in Hg. destruct Hg as [Hg|Hg];
      [apply orb_true_iff in Hg; destruct Hg as [Hg|Hg]|];
      bool_to_prop; [auto | left; lia | right; left; lia].
  - apply andThen_None in H. destruct H as [Hg H]. apply notM_None in H.
    split; [|assumption]. bool_to_prop.
    apply andb_false_iff in Hnull. destruct Hnull; bool_to_prop; lia.
Qed.

Lemma isPathBlocked_returns (fuel : nat) (scene : Scene)
    (row col row' col' : Z) :
  aligned row col row' col' = true ->
  (distance row col row' col' <= fuel)%nat ->
  exists blocked : bool,
    isPathBlocked fuel scene row col row' col' = Some blocked.
Proof.
  intros Ha Hf.
  rewrite (isPathBlocked_spec fuel scene row col row' col' Ha Hf).
  eexists. reflexivity.
Qed.

Lemma isValidMove_returns (fuel : nat) (scene : Scene)
    (piece : option ChessPiece) (row col : Z) :
  (enoughFuel piece row col <= fuel)%nat ->
  exists legal : bool, isValidMove fuel scene piece row col = Some legal.
Proof.
  destruct piece as [p|]; intro Hf; [|exists false; reflexivity].
  destruct (isValidMove fuel scene (Some p) row col) as [legal|] eqn:Hv;
    [exists legal; reflexivity|].
  apply isValidMove_None_inv in Hv. destruct Hv as [_ [Ha Hv]].
  simpl in Hf. rewrite (isPathBlocked_spec _ _ _ _ _ _ Ha Hf) in Hv.
  discriminate.
Qed.

(** C10: [isPathBlocked] returns on every pair of squares that share a
    row, a column or a diagonal as soon as the fuel covers their distance;
    a legality query can only be kept waiting by its call of
    [isPathBlocked] on the square of the piece and the destination, which
    are then distinct and aligned; hence every legality query returns as
    soon as the fuel covers the distance of the move. *)
Theorem C10_legality_queries_terminate :
  (forall (fuel : nat) (scene : Scene) (row col row' col' : Z),
      aligned row col row' col' = true ->
      (distance row col row' col' <= fuel)%nat ->
      exists blocked : bool,
        isPathBlocked fuel scene row col row' col' = Some blocked)
  /\ (forall (fuel : nat) (scene : Scene) (p : ChessPiece) (row col : Z),
         isValidMove fuel scene (Some p) row col = None ->
         (row =? currentRowOf p) && (col =? currentColOf p) = false
         /\ aligned (currentRowOf p) (currentColOf p) row col = true
         /\ isPathBlocked fuel scene
              (currentRowOf p) (currentColOf p) row col = None)
  /\ (forall (fuel : nat) (scene : Scene) (piece : option ChessPiece)
             (row col : Z),
         (enoughFuel piece row col <= fuel)%nat ->
         exists legal : bool,
           isValidMove fuel scene piece row col = Some legal).
Proof.
  split; [|split].
  - exact isPathBlocked_returns.
  - exact isValidMove_None_inv.
  - exact isValidMove_returns.
Qed.

Lemma C10_witness :
  exists legal : bool,
    isValidMove 4 startScene (Some (mkChessPiece 0 350 Rook false)) 7 4
    = Some legal.
Proof.
  apply (proj2 (proj2 C10_legality_queries_terminate) 4%nat startScene
           (Some (mkChessPiece 0 350 Rook false)) 7 4).
  vm_compute. lia.
Defined.

(** On the 8x8 board seven units of fuel are always enough. *)
Lemma isValidMove_on_board_returns (fuel : nat) (scene : Scene)
    (p : ChessPiece) (row col : Z) :
  0 <= currentRowOf p <= 7 -> 0 <= currentColOf p <= 7 ->
  0 <= row <= 7 -> 0 <= col <= 7 ->
  (7 <= fuel)%nat ->
  isValidMove fuel scene (Some p) row col <> None.
Proof.
  intros Hr Hc Hr' Hc' Hf.
  destruct (isValidMove_returns fuel scene (Some p) row col) as [legal Hl].
  - unfold enoughFuel, distance. lia.
  - rewrite Hl. discriminate.
Qed.

(** * Sliding pieces and occupied paths *)

(** Bishop and Queen: a piece strictly between source and destination
    makes the move illegal. *)
Lemma bishop_queen_blocked (fuel : nat) (scene : Scene) (p : ChessPiece)
    (row col : Z) :
  pieceType p = Bishop \/ pieceType p = Queen ->
  (distance (currentRowOf p) (currentColOf p) row col <= fuel)%nat ->
  pathOccupied scene (currentRowOf p) (currentColOf p) row col = true ->
  isValidMove fuel scene (Some p) row col = Some false.
Proof.
  intros Hk Hf Hocc. rewrite isValidMove_unfold.
  destruct ((row =? currentRowOf p) && (col =? currentColOf p)) eqn:Hnull;
    [reflexivity|].
  destruct (sameColorAt scene p row col); [reflexivity|].
  assert (forall g : bool,
             (g = true ->
              aligned (currentRowOf p) (currentColOf p) row col = true) ->
             andThen g (notM (isPathBlocked fuel scene
                                (currentRowOf p) (currentColOf p) row col))
             = Some false) as Hcall.
  { intros [|] Hg; [|reflexivity]. simpl.
    rewrite (isPathBlocked_spec _ _ _ _ _ _ (Hg eq_refl) Hf).
    rewrite Z.eqb_sym, (Z.eqb_sym (currentColOf p)), Hnull, Hocc.
    reflexivity. }
  destruct Hk as [Hk|Hk]; rewrite Hk; apply Hcall; intro Hg;
    apply aligned_iff.
  - bool_to_prop. auto.
  - apply orb_true_iff in Hg. destruct Hg as [Hg|Hg];
      [apply orb_true_iff in Hg; destruct Hg as [Hg|Hg]|];
      bool_to_prop; [auto | left; lia | right; left; lia].
Qed.

(** Rook: the same holds towards higher rows or columns, ... *)
Lemma rook_blocked_upwards (fuel : nat) (scene : Scene) (p : ChessPiece)
    (row col : Z) :
  pieceType p = Rook ->
  row - currentRowOf p > 1 \/ col - currentColOf p > 1 ->
  (distance (currentRowOf p) (currentColOf p) row col <= fuel)%nat ->
  pathOccupied scene (currentRowOf p) (currentColOf p) row col = true ->
  isValidMove fuel scene (Some p) row col = Some false.
Proof.
  intros Hk Hup Hf Hocc. rewrite isValidMove_unfold, Hk.
  destruct ((row =? currentRowOf p) && (col =? currentColOf p)) eqn:Hnull;
    [reflexivity|].
  destruct (sameColorAt scene p row col); [reflexivity|].
  destruct (negb (row =? currentRowOf p) && negb (col =? currentColOf p))
    eqn:Hstraight; [reflexivity|].
  replace ((row - currentRowOf p >? 1) || (col - currentColOf p >? 1))
    with true.
  - simpl. rewrite isPathBlocked_spec; [|apply aligned_iff|assumption].
    + rewrite Z.eqb_sym, (Z.eqb_sym (currentColOf p)), Hnull, Hocc.
      reflexivity.
    + apply andb_false_iff in Hstraight.
      destruct Hstraight; bool_to_prop; auto.
  - symmetry. apply orb_true_iff.
    destruct Hup; [left|right]; apply Z.gtb_lt; lia.
Qed.

(** ... but towards lower rows or columns the path is never looked at:
    the test [rowDiff > 1 || colDiff > 1] compares the signed deltas. *)
Lemma rook_unchecked_downwards (fuel : nat) (scene : Scene) (p : ChessPiece)
    (row col : Z) :
  pieceType p = Rook ->
  (row < currentRowOf p /\ col = currentColOf p)
  \/ (row = currentRowOf p /\ col < currentColOf p) ->
  sameColorAt scene p row col = false ->
  isValidMove fuel scene (Some p) row col = Some true.
Proof.
  intros Hk Hdown Hfriend. rewrite isValidMove_unfold, Hk, Hfriend.
  replace ((row =? currentRowOf p) && (col =? currentColOf p)) with false.
  - replace (negb (row =? currentRowOf p) && negb (col =? currentColOf p))
      with false.
    + replace ((row - currentRowOf p >? 1) || (col - currentColOf p >? 1))
        with false; [reflexivity|].
      symmetry. apply orb_false_iff.
      split; rewrite Z.gtb_ltb; apply Z.ltb_ge; lia.
    + symmetry. apply andb_false_iff.
      destruct Hdown as [[_ H]|[H _]]; [right|left];
        apply negb_false_iff, Z.eqb_eq; assumption.
  - symmetry. apply andb_false_iff.
    destruct Hdown as [[H _]|[_ H]]; [left|right]; apply Z.eqb_neq; lia.
Qed.

(** C1, at the input on which the code departs from it: in the starting
    position the Rook on (7,0) may go to (5,0) although the Pawn on (6,0)
    stands in between, and may even take the Rook on (0,0) across six
    occupied or empty squares; the Rook on (0,0), which moves towards
    higher rows, is stopped by the Pawn on (1,0). *)
Theorem C1_rook_jumps_towards_lower_indices :
  pieceAt startScene 7 0 = Some (mkChessPiece 0 350 Rook false)
  /\ pieceAt startScene 6 0 = Some (mkChessPiece 0 300 Pawn false)
  /\ pieceAt startScene 5 0 = None
  /\ pathOccupied startScene 7 0 5 0 = true
  /\ isValidMove 8 startScene (Some (mkChessPiece 0 350 Rook false)) 5 0
     = Some true
  /\ isValidMove 8 startScene (Some (mkChessPiece 0 350 Rook false)) 0 0
     = Some true
  /\ isValidMove 8 startScene (Some (mkChessPiece 0 0 Rook true)) 2 0
     = Some false.
Proof. repeat split. Qed.

(** * The double advance of the Pawns *)

(** A White Pawn never advances two squares onto a square of the board. *)
Lemma whitePawn_no_double_advance_on_board (fuel : nat) (scene : Scene)
    (p : ChessPiece) (row col : Z) :
  pieceType p = Pawn ->
  isWhitePiece p = true ->
  0 <= row <= 7 ->
  Z.abs (row - currentRowOf p) = 2 ->
  isValidMove fuel scene (Some p) row col <> Some true.
Proof.
  intros Hk Hw Hrow H2 Hv.
  apply whitePawn_legal_inv in Hv; try assumption.
  destruct Hv as [[_ [_ [H|[H H6]]]]|[_ [H _]]]; lia.
Qed.

(** C2, at the inputs on which the code departs from it: in the starting
    position the White Pawns stand on row 1 and the Pawn on (6,4) is
    Black; its move to (4,4) over the empty (5,4) is refused and leaves
    the board as it was.  The White Pawn on (1,4) moves to (2,4), a row
    delta of +1, and not to (3,4).  A White Pawn alone on (6,4) may go
    neither to (5,4) nor to (4,4); it may go to (7,4), and its double
    advance is to row 8, off the board. *)
Theorem C2_pawn_double_advance_refused :
  pieceAt startScene 6 4 = Some (mkChessPiece 200 300 Pawn false)
  /\ pieceAt startScene 5 4 = None
  /\ pieceAt startScene 4 4 = None
  /\ movePiece 8 startScene (Some (mkChessPiece 200 300 Pawn false)) 4 4
     = Some (false, startScene)
  /\ pieceAt startScene 1 4 = Some (mkChessPiece 200 50 Pawn true)
  /\ isValidMove 8 startScene (Some (mkChessPiece 200 50 Pawn true)) 2 4
     = Some true
  /\ isValidMove 8 startScene (Some (mkChessPiece 200 50 Pawn true)) 3 4
     = Some false
  /\ isValidMove 8 [mkChessPiece 200 300 Pawn true]
       (Some (mkChessPiece 200 300 Pawn true)) 5 4 = Some false
  /\ isValidMove 8 [mkChessPiece 200 300 Pawn true]
       (Some (mkChessPiece 200 300 Pawn true)) 4 4 = Some false
  /\ isValidMove 8 [mkChessPiece 200 300 Pawn true]
       (Some (mkChessPiece 200 300 Pawn true)) 7 4 = Some true
  /\ isValidMove 8 [mkChessPiece 200 300 Pawn true]
       (Some (mkChessPiece 200 300 Pawn true)) 8 4 = Some true.
Proof. repeat split. Qed.

(** * Scenes with at most one piece per square *)

Lemma shapeContains_onGrid (p : ChessPiece) (row col : Z) :
  onGrid p = true ->
  shapeContains p (col * 50 + 25) (row * 50 + 25) = standsOn p row col.
Proof.
  unfold onGrid, shapeContains, standsOn. intro H. bool_to_prop.
  apply Bool.eq_iff_eq_true.
  rewrite !andb_true_iff, !Z.leb_le, !Z.ltb_lt, !Z.eqb_eq.
  split.
  - intros [[[Hx Hx'] Hy] Hy']. split; lia.
  - intros [Hr Hc]. lia.
Qed.

Lemma shapeIntersects_onGrid (p : ChessPiece) (row col : Z) :
  onGrid p = true ->
  shapeIntersects p (col * 50) (row * 50) 50 50 = standsOn p row col.
Proof.
  unfold onGrid, shapeIntersects, standsOn. intro H. bool_to_prop.
  apply Bool.eq_iff_eq_true.
  rewrite !andb_true_iff, !Z.ltb_lt, !Z.eqb_eq.
  split.
  - intros [[[Hx Hx'] Hy] Hy']. split; lia.
  - intros [Hr Hc]. lia.
Qed.

Lemma currentRowOf_at (row col : Z) (t : PieceType) (w : bool) :
  currentRowOf (mkChessPiece (col * 50) (row * 50) t w) = row.
Proof. unfold currentRowOf. simpl. apply Z.quot_mul. lia. Qed.

Lemma currentColOf_at (row col : Z) (t : PieceType) (w : bool) :
  currentColOf (mkChessPiece (col * 50) (row * 50) t w) = col.
Proof. unfold currentColOf. simpl. apply Z.quot_mul. lia. Qed.

Lemma standsOn_at (row col row' col' : Z) (t : PieceType) (w : bool) :
  standsOn (mkChessPiece (col * 50) (row * 50) t w) row' col'
  = (row' =? row) && (col' =? col).
Proof.
  unfold standsOn. rewrite currentRowOf_at, currentColOf_at.
  now rewrite Z.eqb_sym, (Z.eqb_sym col).
Qed.

Lemma onGrid_at (row col : Z) (t : PieceType) (w : bool) :
  onGrid (mkChessPiece (col * 50) (row * 50) t w) = true.
Proof.
  unfold onGrid. rewrite currentRowOf_at, currentColOf_at. cbn [pos_x pos_y].
  apply andb_true_iff. split; apply Z.eqb_eq; lia.
Qed.

Lemma standsOn_own_square (p : ChessPiece) :
  standsOn p (currentRowOf p) (currentColOf p) = true.
Proof. unfold standsOn. now rewrite !Z.eqb_refl. Qed.

Lemma wellFormed_cons (a : ChessPiece) (rest : Scene) :
  wellFormed (a :: rest) = true <->
  onGrid a = true
  /\ (forall q, In q rest ->
                standsOn q (currentRowOf a) (currentColOf a) = false)
  /\ wellFormed rest = true.
Proof.
  unfold wellFormed. cbn [forallb distinctSquares].
  rewrite !andb_true_iff, (forallb_forall (fun q => negb _)).
  split.
  - intros [[Ha Hg] [Hd Hr]]. repeat split; try assumption.
    intros q Hq. apply negb_true_iff. now apply Hd.
  - intros [Ha [Hd [Hg Hr]]]. repeat split; try assumption.
    intros q Hq. apply negb_true_iff. now apply Hd.
Qed.

Lemma wellFormed_onGrid (scene : Scene) (q : ChessPiece) :
  wellFormed scene = true -> In q scene -> onGrid q = true.
Proof.
  unfold wellFormed. intros H Hq. apply andb_true_iff in H.
  destruct H as [H _]. rewrite forallb_forall in H. now apply H.
Qed.

Lemma pieceAt_cons (a : ChessPiece) (rest : Scene) (row col : Z) :
  onGrid a = true ->
  pieceAt (a :: rest) row col
  = if standsOn a row col then Some a else pieceAt rest row col.
Proof.
  intro Ha. unfold pieceAt, itemAt. cbn [find].
  now rewrite shapeContains_onGrid.
Qed.

Lemma pieceAt_Some_inv (scene : Scene) (q : ChessPiece) (row col : Z) :
  wellFormed scene = true ->
  pieceAt scene row col = Some q ->
  In q scene /\ standsOn q row col = true.
Proof.
  intros Hwf H. unfold pieceAt, itemAt in H. apply find_some in H.
  destruct H as [Hq H]. split; [assumption|].
  rewrite shapeContains_onGrid in H; [assumption|].
  now apply (wellFormed_onGrid scene).
Qed.

Lemma pieceAt_None_inv (scene : Scene) (q : ChessPiece) (row col : Z) :
  wellFormed scene = true ->
  pieceAt scene row col = None ->
  In q scene -> standsOn q row col = false.
Proof.
  intros Hwf H Hq. unfold pieceAt, itemAt in H.
  rewrite <- (shapeContains_onGrid q row col).
  - now apply (find_none _ _ H).
  - now apply (wellFormed_onGrid scene).
Qed.

Lemma pieceAt_None_intro (scene : Scene) (row col : Z) :
  wellFormed scene = true ->
  (forall q, In q scene -> standsOn q row col = false) ->
  pieceAt scene row col = None.
Proof.
  intros Hwf H. destruct (pieceAt scene row col) as [q|] eqn:Hq;
    [|reflexivity].
  apply pieceAt_Some_inv in Hq; [|assumption]. destruct Hq as [Hin Hs].
  rewrite (H q Hin) in Hs. discriminate.
Qed.

(** In a well formed scene the piece on a square is the only one there. *)
Lemma pieceAt_Some_intro (scene : Scene) (q : ChessPiece) (row col : Z) :
  wellFormed scene = true ->
  In q scene -> standsOn q row col = true ->
  pieceAt scene row col = Some q.
Proof.
  induction scene as [|a rest IH]; intros Hwf Hin Hs; [destruct Hin|].
  apply wellFormed_cons in Hwf. destruct Hwf as [Ha [Hd Hr]].
  rewrite pieceAt_cons by assumption.
  destruct Hin as [->|Hin].
  - now rewrite Hs.
  - destruct (standsOn a row col) eqn:Has; [|now apply IH].
    unfold standsOn in Has. bool_to_prop. subst row col.
    rewrite (Hd q Hin) in Hs. discriminate.
Qed.

(** *** [removeItem] *)

Lemma removeItem_In (scene : Scene) (d x : ChessPiece) :
  In x (removeItem scene d) -> In x scene.
Proof.
  induction scene as [|a rest IH]; simpl; [auto|].
  destruct (ChessPiece_eqb a d); simpl; intuition.
Qed.

Lemma removeItem_In_other (scene : Scene) (d x : ChessPiece) :
  In x scene -> x <> d -> In x (removeItem scene d).
Proof.
  induction scene as [|a rest IH]; simpl; [auto|].
  intros [->|Hin] Hne.
  - apply ChessPiece_eqb_neq in Hne. rewrite Hne. now left.
  - destruct (ChessPiece_eqb a d); [assumption|]. right. now apply IH.
Qed.

Lemma removeItem_length (scene : Scene) (d : ChessPiece) :
  In d scene -> S (length (removeItem scene d)) = length scene.
Proof.
  induction scene as [|a rest IH]; simpl; [intros []|].
  destruct (ChessPiece_eqb a d) eqn:E; [reflexivity|].
  intros [->|Hin].
  - rewrite ChessPiece_eqb_refl in E. discriminate.
  - simpl. now rewrite IH.
Qed.

Lemma removeItem_wellFormed (scene : Scene) (d : ChessPiece) :
  wellFormed scene = true -> wellFormed (removeItem scene d) = true.
Proof.
  induction scene as [|a rest IH]; [auto|].
  intro Hwf. apply wellFormed_cons in Hwf. destruct Hwf as [Ha [Hd Hr]].
  cbn [removeItem]. destruct (ChessPiece_eqb a d); [assumption|].
  apply wellFormed_cons. repeat split; [assumption| |now apply IH].
  intros q Hq. apply Hd. now apply removeItem_In in Hq.
Qed.

Lemma removeItem_pieceAt (scene : Scene) (d : ChessPiece) (row col : Z) :
  wellFormed scene = true -> In d scene ->
  pieceAt (removeItem scene d) row col
  = if standsOn d row col then None else pieceAt scene row col.
Proof.
  induction scene as [|a rest IH]; intros Hwf Hin; [destruct Hin|].
  apply wellFormed_cons in Hwf. destruct Hwf as [Ha [Hd Hr]].
  cbn [removeItem]. destruct (ChessPiece_eqb a d) eqn:E.
  - apply ChessPiece_eqb_eq in E. subst a.
    rewrite pieceAt_cons by assumption.
    destruct (standsOn d row col) eqn:Hs; [|reflexivity].
    apply pieceAt_None_intro; [assumption|].
    intros q Hq. unfold standsOn in Hs. bool_to_prop. subst row col.
    now apply Hd.
  - destruct Hin as [->|Hin];
      [rewrite ChessPiece_eqb_refl in E; discriminate|].
    rewrite !pieceAt_cons by assumption.
    destruct (standsOn a row col) eqn:Has.
    + unfold standsOn in Has. bool_to_prop. subst row col.
      now rewrite (Hd d Hin).
    + now apply IH.
Qed.

Lemma removeItem_notIn (scene : Scene) (d : ChessPiece) :
  wellFormed scene = true -> ~ In d (removeItem scene d).
Proof.
  intros Hwf Hin.
  assert (wellFormed (removeItem scene d) = true) as Hwf'
    by now apply removeItem_wellFormed.
  pose proof (removeItem_In _ _ _ Hin) as Hin0.
  pose proof (pieceAt_Some_intro _ d _ _ Hwf' Hin (standsOn_own_square d))
    as H.
  rewrite removeItem_pieceAt, standsOn_own_square in H by assumption.
  discriminate.
Qed.

(** *** [setPos] *)


Lemma setPos_In (scene : Scene) (p q : ChessPiece) (row col : Z) :
  In q (setPos scene p (col * 50) (row * 50)) ->
  q = moved p row col \/ (In q scene /\ q <> p) \/ (In q scene /\ In p scene
                                                   /\ q = p).
Proof.
  induction scene as [|a rest IH]; simpl; [intros []|].
  destruct (ChessPiece_eqb a p) eqn:E.
  - apply ChessPiece_eqb_eq in E. subst a. intros [<-|Hin].
    + left. reflexivity.
    + destruct (ChessPiece_eqb q p) eqn:E'.
      * apply ChessPiece_eqb_eq in E'. subst q. right. right. auto.
      * apply ChessPiece_eqb_neq in E'. right. left. auto.
  - apply ChessPiece_eqb_neq in E. intros [<-|Hin].
    + right. left. auto.
    + destruct (IH Hin) as [H|[[H1 H2]|[H1 [H2 H3]]]]; auto.
      right. right. auto.
Qed.

Lemma setPos_pieceAt (scene : Scene) (p : ChessPiece)
    (row col row' col' : Z) :
  wellFormed scene = true -> In p scene ->
  pieceAt scene row col = None ->
  pieceAt (setPos scene p (col * 50) (row * 50)) row' col'
  = if (row' =? row) && (col' =? col) then Some (moved p row col)
    else if standsOn p row' col' then None
    else pieceAt scene row' col'.
Proof.
  induction scene as [|a rest IH]; intros Hwf Hin Hfree; [destruct Hin|].
  pose proof Hwf as Hwf0.
  apply wellFormed_cons in Hwf. destruct Hwf as [Ha [Hd Hr]].
  rewrite pieceAt_cons in Hfree by assumption.
  destruct (standsOn a row col) eqn:Hadest; [discriminate|].
  cbn [setPos]. destruct (ChessPiece_eqb a p) eqn:E.
  - apply ChessPiece_eqb_eq in E. subst a.
    fold (moved p row col).
    rewrite pieceAt_cons by apply onGrid_at.
    unfold moved at 1. rewrite standsOn_at.
    destruct ((row' =? row) && (col' =? col)); [reflexivity|].
    rewrite pieceAt_cons by assumption.
    destruct (standsOn p row' col') eqn:Hs; [|reflexivity].
    apply pieceAt_None_intro; [assumption|].
    intros q Hq. unfold standsOn in Hs. bool_to_prop. subst row' col'.
    now apply Hd.
  - destruct Hin as [->|Hin];
      [rewrite ChessPiece_eqb_refl in E; discriminate|].
    rewrite !pieceAt_cons by assumption.
    destruct (standsOn a row' col') eqn:Has.
    + replace ((row' =? row) && (col' =? col)) with false.
      * unfold standsOn in Has. bool_to_prop. subst row' col'.
        now rewrite (Hd p Hin).
      * symmetry. apply not_true_iff_false. intro H. bool_to_prop.
        subst row' col'. congruence.
    + now apply IH.
Qed.

Lemma setPos_wellFormed (scene : Scene) (p : ChessPiece) (row col : Z) :
  wellFormed scene = true ->
  pieceAt scene row col = None ->
  wellFormed (setPos scene p (col * 50) (row * 50)) = true.
Proof.
  induction scene as [|a rest IH]; intros Hwf Hfree; [reflexivity|].
  pose proof Hwf as Hwf0.
  apply wellFormed_cons in Hwf. destruct Hwf as [Ha [Hd Hr]].
  rewrite pieceAt_cons in Hfree by assumption.
  destruct (standsOn a row col) eqn:Hadest; [discriminate|].
  cbn [setPos]. destruct (ChessPiece_eqb a p) eqn:E.
  - apply wellFormed_cons. repeat split; [apply onGrid_at| |assumption].
    intros q Hq. rewrite currentRowOf_at, currentColOf_at.
    now apply (pieceAt_None_inv rest).
  - apply wellFormed_cons. repeat split; [assumption| |now apply IH].
    intros q Hq. apply setPos_In in Hq.
    destruct Hq as [->|[[Hq _]|[Hq _]]]; try now apply Hd.
    unfold moved. rewrite standsOn_at.
    apply not_true_iff_false. intro H. bool_to_prop.
    unfold standsOn in Hadest. rewrite <- H, <- H0, !Z.eqb_refl in Hadest.
    discriminate.
Qed.

(** *** The capture loop *)

Lemma capture_find (scene : Scene) (p : ChessPiece) (row col : Z) :
  wellFormed scene = true ->
  standsOn p row col = false ->
  find (fun q => negb (ChessPiece_eqb q p)
                 && negb (Bool.eqb (isWhitePiece q) (isWhitePiece p)))
       (items scene (col * 50) (row * 50) 50 50)
  = match pieceAt scene row col with
    | Some d =>
        if negb (Bool.eqb (isWhitePiece d) (isWhitePiece p))
        then Some d else None
    | None => None
    end.
Proof.
  intros Hwf Hp. induction scene as [|a rest IH]; [reflexivity|].
  apply wellFormed_cons in Hwf. destruct Hwf as [Ha [Hd Hr]].
  unfold items. cbn [filter]. fold (items rest (col * 50) (row * 50) 50 50).
  rewrite shapeIntersects_onGrid, pieceAt_cons by assumption.
  destruct (standsOn a row col) eqn:Has; [|now apply IH].
  cbn [find].
  assert (ChessPiece_eqb a p = false) as Hne.
  { apply ChessPiece_eqb_neq. intros ->. congruence. }
  rewrite Hne. cbn [negb andb].
  destruct (negb (Bool.eqb (isWhitePiece a) (isWhitePiece p)));
    [reflexivity|].
  rewrite (IH Hr).
  rewrite (pieceAt_None_intro rest row col Hr); [reflexivity|].
  intros q Hq. unfold standsOn in Has. bool_to_prop. subst row col.
  now apply Hd.
Qed.

Lemma capture_spec (scene : Scene) (p : ChessPiece) (row col : Z) :
  wellFormed scene = true ->
  standsOn p row col = false ->
  capture scene p row col
  = match pieceAt scene row col with
    | Some d =>
        if negb (Bool.eqb (isWhitePiece d) (isWhitePiece p))
        then removeItem scene d else scene
    | None => scene
    end.
Proof.
  intros Hwf Hp. unfold capture. rewrite capture_find by assumption.
  destruct (pieceAt scene row col) as [d|]; [|reflexivity].
  now destruct (negb (Bool.eqb (isWhitePiece d) (isWhitePiece p))).
Qed.

Lemma standsOn_same_square (d : ChessPiece) (row col row' col' : Z) :
  standsOn d row col = true ->
  standsOn d row' col' = (row' =? row) && (col' =? col).
Proof.
  unfold standsOn. intro H. bool_to_prop. subst row col.
  now rewrite Z.eqb_sym, (Z.eqb_sym (currentColOf d)).
Qed.

(** After the capture loop of a move that is neither null nor onto a piece
    of the mover's color, the destination is empty and nothing else has
    changed. *)
Lemma capture_effect (scene : Scene) (p : ChessPiece) (row col : Z) :
  wellFormed scene = true -> In p scene ->
  standsOn p row col = false ->
  sameColorAt scene p row col = false ->
  wellFormed (capture scene p row col) = true
  /\ In p (capture scene p row col)
  /\ (forall row' col',
        pieceAt (capture scene p row col) row' col'
        = if (row' =? row) && (col' =? col) then None
          else pieceAt scene row' col')
  /\ (forall q, In q (capture scene p row col) -> In q scene)
  /\ match pieceAt scene row col with
     | Some d => S (length (capture scene p row col)) = length scene
     | None => length (capture scene p row col) = length scene
     end.
Proof.
  intros Hwf Hin Hp Hfriend. rewrite capture_spec by assumption.
  unfold sameColorAt in Hfriend.
  destruct (pieceAt scene row col) as [d|] eqn:Hd.
  - rewrite Hfriend. cbn [negb].
    apply pieceAt_Some_inv in Hd; [|assumption]. destruct Hd as [Hdin Hds].
    repeat split.
    + now apply removeItem_wellFormed.
    + apply removeItem_In_other; [assumption|]. intros ->. congruence.
    + intros row' col'. rewrite removeItem_pieceAt by assumption.
      now rewrite (standsOn_same_square d row col).
    + apply removeItem_In.
    + now apply removeItem_length.
  - repeat split; try assumption; try auto.
    intros row' col'.
    destruct ((row' =? row) && (col' =? col)) eqn:E; [|reflexivity].
    bool_to_prop. now subst row' col'.
Qed.

(** * The effects of [movePiece] *)

Lemma movePiece_unfold (fuel : nat) (scene : Scene) (p : ChessPiece)
    (row col : Z) :
  movePiece fuel scene (Some p) row col
  = valid <- isValidMove fuel scene (Some p) row col ;;
    if valid then Some (true, applied scene p row col)
    else Some (false, scene).
Proof. reflexivity. Qed.

Lemma isValidMove_true_inv (fuel : nat) (scene : Scene) (p : ChessPiece)
    (row col : Z) :
  isValidMove fuel scene (Some p) row col = Some true ->
  standsOn p row col = false /\ sameColorAt scene p row col = false.
Proof.
  rewrite isValidMove_unfold. unfold standsOn.
  rewrite (Z.eqb_sym (currentRowOf p)), (Z.eqb_sym (currentColOf p)).
  destruct ((row =? currentRowOf p) && (col =? currentColOf p));
    [discriminate|].
  destruct (sameColorAt scene p row col); [discriminate|]. auto.
Qed.

Section AppliedMove.

Variables (scene : Scene) (p : ChessPiece) (row col : Z).
Hypothesis Hwf : wellFormed scene = true.
Hypothesis Hin : In p scene.
Hypothesis Hmove : standsOn p row col = false.
Hypothesis Hfriend : sameColorAt scene p row col = false.

Lemma applied_pieceAt (row' col' : Z) :
  pieceAt (applied scene p row col) row' col'
  = if (row' =? row) && (col' =? col) then Some (arrival p row col)
    else if standsOn p row' col' then None
    else pieceAt scene row' col'.
Proof.
  destruct (capture_effect scene p row col Hwf Hin Hmove Hfriend)
    as [Hwf1 [Hin1 [Hat1 _]]].
  unfold applied, arrival. destruct (isPawnPromotion p row).
  - unfold promotePawn, addItem. fold (promoted p row col).
    rewrite pieceAt_cons by apply onGrid_at.
    unfold promoted at 1. rewrite standsOn_at.
    destruct ((row' =? row) && (col' =? col)) eqn:E; [reflexivity|].
    rewrite removeItem_pieceAt by assumption.
    destruct (standsOn p row' col'); [reflexivity|].
    now rewrite Hat1, E.
  - rewrite setPos_pieceAt; try assumption.
    + destruct ((row' =? row) && (col' =? col)) eqn:E; [reflexivity|].
      destruct (standsOn p row' col'); [reflexivity|].
      now rewrite Hat1, E.
    + now rewrite Hat1, !Z.eqb_refl.
Qed.

(** A square holds 0 or 1 piece after the move as before. *)
Lemma applied_wellFormed : wellFormed (applied scene p row col) = true.
Proof.
  destruct (capture_effect scene p row col Hwf Hin Hmove Hfriend)
    as [Hwf1 [Hin1 [Hat1 _]]].
  assert (pieceAt (capture scene p row col) row col = None) as Hfree
    by now rewrite Hat1, !Z.eqb_refl.
  unfold applied. destruct (isPawnPromotion p row).
  - unfold promotePawn, addItem. apply wellFormed_cons.
    repeat split; [apply onGrid_at| |now apply removeItem_wellFormed].
    intros q Hq. rewrite currentRowOf_at, currentColOf_at.
    apply removeItem_In in Hq.
    now apply (pieceAt_None_inv (capture scene p row col)).
  - now apply setPos_wellFormed.
Qed.

Lemma applied_notIn : ~ In p (applied scene p row col).
Proof.
  intro H.
  pose proof (pieceAt_Some_intro _ p _ _ applied_wellFormed H
                (standsOn_own_square p)) as Hat.
  rewrite applied_pieceAt, standsOn_own_square in Hat.
  fold (standsOn p row col) in Hat. rewrite Hmove in Hat. discriminate.
Qed.

(** The pieces after the move: the arrival and the old pieces, the
    mover excepted; nothing else is created. *)
Lemma applied_In (q : ChessPiece) :
  In q (applied scene p row col) ->
  q = arrival p row col \/ (In q scene /\ q <> p).
Proof.
  intro H.
  destruct (capture_effect scene p row col Hwf Hin Hmove Hfriend)
    as [Hwf1 [Hin1 [Hat1 [Hsub _]]]].
  assert (q <> p) as Hne by (intros ->; now apply applied_notIn in H).
  revert H. unfold applied, arrival. destruct (isPawnPromotion p row).
  - unfold promotePawn, addItem. intros [<-|H]; [now left|].
    right. split; [|assumption]. apply Hsub. now apply removeItem_In in H.
  - intro H. apply setPos_In in H.
    destruct H as [->|[[H _]|[_ [_ H]]]]; [now left| |contradiction].
    right. split; [now apply Hsub | assumption].
Qed.



End AppliedMove.

(** * Moves are applied whole or not at all *)

(** C7: every call of [movePiece] returns (given fuel for the distance of
    the move) and is of one of two kinds.  Either the move is not legal
    and the call returns false with the very scene it was given; or the
    move is legal and the call returns true with the scene on which all
    the effects have been carried out: on a well formed scene holding the
    mover, the destination then holds the mover (or the Queen it is
    promoted to) and no captured piece, the square it left is empty, and
    every other square is as before. *)
Theorem C7_movePiece_all_or_nothing
    (fuel : nat) (scene : Scene) (piece : option ChessPiece) (row col : Z) :
  (enoughFuel piece row col <= fuel)%nat ->
  (isValidMove fuel scene piece row col = Some false
   /\ movePiece fuel scene piece row col = Some (false, scene))
  \/ (exists p : ChessPiece,
        piece = Some p
        /\ isValidMove fuel scene piece row col = Some true
        /\ movePiece fuel scene piece row col
           = Some (true, applied scene p row col)
        /\ (wellFormed scene = true -> In p scene ->
            forall row' col' : Z,
              pieceAt (applied scene p row col) row' col'
              = if (row' =? row) && (col' =? col)
                then Some (arrival p row col)
                else if standsOn p row' col' then None
                else pieceAt scene row' col')).
Proof.
  intro Hf.
  destruct (isValidMove_returns fuel scene piece row col Hf) as [legal Hl].
  destruct piece as [p|]; [|left; split; reflexivity].
  destruct legal.
  - right. exists p. repeat split; try assumption.
    + rewrite movePiece_unfold, Hl. reflexivity.
    + intros Hwf Hin row' col'.
      apply isValidMove_true_inv in Hl. destruct Hl as [Hmove Hfriend].
      now apply applied_pieceAt.
  - left. split; [assumption|].
    rewrite movePiece_unfold, Hl. reflexivity.
Qed.

Lemma C7_witness :
  (isValidMove 2 startScene (Some (mkChessPiece 200 300 Pawn false)) 4 4
   = Some false
   /\ movePiece 2 startScene (Some (mkChessPiece 200 300 Pawn false)) 4 4
      = Some (false, startScene))
  \/ (exists p : ChessPiece,
        Some (mkChessPiece 200 300 Pawn false) = Some p
        /\ isValidMove 2 startScene
             (Some (mkChessPiece 200 300 Pawn false)) 4 4 = Some true
        /\ movePiece 2 startScene
             (Some (mkChessPiece 200 300 Pawn false)) 4 4
           = Some (true, applied startScene p 4 4)
        /\ (wellFormed startScene = true -> In p startScene ->
            forall row' col' : Z,
              pieceAt (applied startScene p 4 4) row' col'
              = if (row' =? 4) && (col' =? 4)
                then Some (arrival p 4 4)
                else if standsOn p row' col' then None
                else pieceAt startScene row' col')).
Proof.
  apply (C7_movePiece_all_or_nothing 2 startScene
           (Some (mkChessPiece 200 300 Pawn false)) 4 4).
  vm_compute. lia.
Defined.

(** * Captures *)




(** * Promotion *)




(** The invariant of the board: the starting position is well formed,
    and every legal move of a piece of a well formed scene leaves it
    well formed. *)
Lemma startScene_wellFormed : wellFormed startScene = true.
Proof. reflexivity. Qed.

Lemma movePiece_wellFormed (fuel : nat) (scene scene' : Scene)
    (p : ChessPiece) (row col : Z) (moved_ : bool) :
  wellFormed scene = true -> In p scene ->
  movePiece fuel scene (Some p) row col = Some (moved_, scene') ->
  wellFormed scene' = true.
Proof.
  intros Hwf Hin. rewrite movePiece_unfold.
  destruct (isValidMove fuel scene (Some p) row col) as [[|]|] eqn:Hl;
    simpl; intro H; [| |discriminate]; injection H as _ <-;
    [|assumption].
  apply isValidMove_true_inv in Hl. destruct Hl as [Hmove Hfriend].
  now apply applied_wellFormed.
Qed.

(** * Further properties of the rules *)

(** ** Squares that are not aligned *)

Lemma isPathBlocked_loop_never_ends (scene : Scene)
    (endRow endCol dRow dCol : Z) (fuel : nat) :
  forall row col : Z,
    (forall j : Z, 0 <= j ->
       (row + j * dRow <> endRow \/ col + j * dCol <> endCol)
       /\ pieceAt scene (row + j * dRow) (col + j * dCol) = None) ->
    isPathBlocked_loop fuel scene row col endRow endCol dRow dCol = None.
Proof.
  induction fuel as [|fuel IH]; intros row col H; [reflexivity|].
  cbn [isPathBlocked_loop].
  destruct (H 0 (Z.le_refl 0)) as [Hne Hfree].
  rewrite !Z.mul_0_l, !Z.add_0_r in Hne, Hfree.
  replace (negb (row =? endRow) || negb (col =? endCol)) with true.
  - fold (pieceAt scene row col). rewrite Hfree. apply IH.
    intros j Hj. destruct (H (j + 1)) as [Hne' Hfree']; [lia|].
    replace (row + dRow + j * dRow) with (row + (j + 1) * dRow) by ring.
    replace (col + dCol + j * dCol) with (col + (j + 1) * dCol) by ring.
    auto.
  - symmetry. apply orb_true_iff.
    destruct Hne; [left|right]; now apply negb_true_iff, Z.eqb_neq.
Qed.

Lemma unaligned_never_met (row col row' col' k : Z) :
  aligned row col row' col' = false ->
  0 < k ->
  row + k * direction row row' <> row'
  \/ col + k * direction col col' <> col'.
Proof.
  unfold aligned, direction. intros Ha Hk.
  apply orb_false_iff in Ha. destruct Ha as [Ha Hdiag].
  apply orb_false_iff in Ha. destruct Ha as [Hr Hc].
  apply Z.eqb_neq in Hr, Hc, Hdiag.
  destruct (row' >? row) eqn:E1; destruct (row' <? row) eqn:E2;
    destruct (col' >? col) eqn:E3; destruct (col' <? col) eqn:E4;
    lia.
Qed.

(** X2: on two squares that share neither a row, nor a column, nor a
    diagonal, [isPathBlocked] walks a diagonal that misses its end: when
    no piece stands on that diagonal, no amount of fuel makes it
    return. *)
Theorem isPathBlocked_unaligned_never_returns
    (scene : Scene) (row col row' col' : Z) :
  aligned row col row' col' = false ->
  (forall k : Z, 0 < k ->
     pieceAt scene (row + k * direction row row')
                   (col + k * direction col col') = None) ->
  forall fuel : nat, isPathBlocked fuel scene row col row' col' = None.
Proof.
  intros Ha Hfree fuel. rewrite isPathBlocked_unfold.
  replace ((row =? row') && (col =? col')) with false.
  - apply isPathBlocked_loop_never_ends. intros j Hj.
    replace (row + direction row row' + j * direction row row')
      with (row + (j + 1) * direction row row') by ring.
    replace (col + direction col col' + j * direction col col')
      with (col + (j + 1) * direction col col') by ring.
    split.
    + apply unaligned_never_met; [assumption|lia].
    + apply Hfree. lia.
  - symmetry. apply andb_false_iff. left. apply Z.eqb_neq.
    unfold aligned in Ha. apply orb_false_iff in Ha. destruct Ha as [Ha _].
    apply orb_false_iff in Ha. destruct Ha as [Hr _].
    apply Z.eqb_neq in Hr. lia.
Qed.

Lemma isPathBlocked_unaligned_never_returns_witness :
  isPathBlocked 100 [] 0 1 2 2 = None.
Proof.
  generalize 100%nat.
  apply (isPathBlocked_unaligned_never_returns [] 0 1 2 2).
  - reflexivity.
  - intros k Hk. reflexivity.
Defined.

(** ** Legality sees colors and occupancy only *)

Lemma colorAt_eq_inv (scene1 scene2 : Scene) (row col : Z) :
  colorAt scene1 row col = colorAt scene2 row col ->
  match pieceAt scene1 row col, pieceAt scene2 row col with
  | Some a, Some b => isWhitePiece a = isWhitePiece b
  | None, None => True
  | _, _ => False
  end.
Proof.
  unfold colorAt.
  destruct (pieceAt scene1 row col), (pieceAt scene2 row col);
    intro H; try discriminate; [congruence | exact I].
Qed.

Section SameColors.

Variables scene1 scene2 : Scene.
Hypothesis Hcolors :
  forall row col : Z, colorAt scene1 row col = colorAt scene2 row col.

Lemma isPathBlocked_loop_colors (fuel : nat)
    (row col endRow endCol dRow dCol : Z) :
  isPathBlocked_loop fuel scene1 row col endRow endCol dRow dCol
  = isPathBlocked_loop fuel scene2 row col endRow endCol dRow dCol.
Proof.
  revert row col. induction fuel as [|fuel IH]; intros row col;
    [reflexivity|].
  cbn [isPathBlocked_loop].
  destruct (negb (row =? endRow) || negb (col =? endCol)); [|reflexivity].
  fold (pieceAt scene1 row col). fold (pieceAt scene2 row col).
  pose proof (colorAt_eq_inv _ _ _ _ (Hcolors row col)) as H.
  destruct (pieceAt scene1 row col), (pieceAt scene2 row col);
    try contradiction; [reflexivity | apply IH].
Qed.

Lemma isPathBlocked_colors (fuel : nat) (row col row' col' : Z) :
  isPathBlocked fuel scene1 row col row' col'
  = isPathBlocked fuel scene2 row col row' col'.
Proof.
  rewrite !isPathBlocked_unfold.
  destruct ((row =? row') && (col =? col')); [reflexivity|].
  apply isPathBlocked_loop_colors.
Qed.

Lemma sameColorAt_colors (p : ChessPiece) (row col : Z) :
  sameColorAt scene1 p row col = sameColorAt scene2 p row col.
Proof.
  unfold sameColorAt.
  pose proof (colorAt_eq_inv _ _ _ _ (Hcolors row col)) as H.
  destruct (pieceAt scene1 row col), (pieceAt scene2 row col);
    try contradiction; [now rewrite H | reflexivity].
Qed.

Lemma isValidMoveWhitePawn_colors (fuel : nat) (p : ChessPiece)
    (row col : Z) :
  isValidMoveWhitePawn fuel scene1 (Some p) row col
  = isValidMoveWhitePawn fuel scene2 (Some p) row col.
Proof.
  unfold isValidMoveWhitePawn.
  change (itemAt scene1 (col * 50 + 25) (row * 50 + 25))
    with (pieceAt scene1 row col).
  change (itemAt scene2 (col * 50 + 25) (row * 50 + 25))
    with (pieceAt scene2 row col).
  rewrite isPathBlocked_colors.
  pose proof (colorAt_eq_inv _ _ _ _ (Hcolors row col)) as H.
  destruct (pieceAt scene1 row col), (pieceAt scene2 row col);
    try contradiction; [now rewrite H | reflexivity].
Qed.

Lemma isValidMoveBlackPawn_colors (fuel : nat) (p : ChessPiece)
    (row col : Z) :
  isValidMoveBlackPawn fuel scene1 (Some p) row col
  = isValidMoveBlackPawn fuel scene2 (Some p) row col.
Proof.
  unfold isValidMoveBlackPawn.
  change (itemAt scene1 (col * 50 + 25) (row * 50 + 25))
    with (pieceAt scene1 row col).
  change (itemAt scene2 (col * 50 + 25) (row * 50 + 25))
    with (pieceAt scene2 row col).
  rewrite isPathBlocked_colors.
  pose proof (colorAt_eq_inv _ _ _ _ (Hcolors row col)) as H.
  destruct (pieceAt scene1 row col), (pieceAt scene2 row col);
    try contradiction; [now rewrite H | reflexivity].
Qed.

Lemma isValidMove_colors (fuel : nat) (piece : option ChessPiece)
    (row col : Z) :
  isValidMove fuel scene1 piece row col
  = isValidMove fuel scene2 piece row col.
Proof.
  destruct piece as [p|]; [|reflexivity].
  rewrite !isValidMove_unfold, sameColorAt_colors, isPathBlocked_colors,
    isValidMoveWhitePawn_colors, isValidMoveBlackPawn_colors.
  reflexivity.
Qed.

End SameColors.

(** X3: the legality test sees of the other pieces only which squares
    they hold and their colors: two scenes with the same colors on the
    same squares give the same answer for every piece and destination,
    whatever the kinds of the pieces that stand there (a King on the way
    or on the destination counts like any other piece). *)
Theorem isValidMove_depends_on_colors_only
    (scene1 scene2 : Scene) (fuel : nat) (piece : option ChessPiece)
    (row col : Z) :
  (forall row' col' : Z,
     colorAt scene1 row' col' = colorAt scene2 row' col') ->
  isValidMove fuel scene1 piece row col
  = isValidMove fuel scene2 piece row col.
Proof.
  intro H. now apply isValidMove_colors.
Qed.

Lemma isValidMove_depends_on_colors_only_witness :
  isValidMove 3 [mkChessPiece 100 100 King false]
    (Some (mkChessPiece 0 0 Bishop true)) 2 2
  = isValidMove 3 [mkChessPiece 100 100 Pawn false]
      (Some (mkChessPiece 0 0 Bishop true)) 2 2.
Proof.
  apply (isValidMove_depends_on_colors_only
           [mkChessPiece 100 100 King false]
           [mkChessPiece 100 100 Pawn false]).
  intros row' col'. unfold colorAt, pieceAt, itemAt. cbn [find].
  unfold shapeContains. cbn [pos_x pos_y isWhitePiece].
  destruct ((100 <=? col' * 50 + 25) && (col' * 50 + 25 <? 100 + 50)
            && (100 <=? row' * 50 + 25) && (row' * 50 + 25 <? 100 + 50));
    reflexivity.
Defined.

(** ** The King *)

Lemma null_test_standsOn (p : ChessPiece) (row col : Z) :
  (row =? currentRowOf p) && (col =? currentColOf p) = standsOn p row col.
Proof.
  unfold standsOn. now rewrite Z.eqb_sym, (Z.eqb_sym col).
Qed.

Lemma standsOn_false_iff (p : ChessPiece) (row col : Z) :
  standsOn p row col = false
  <-> (row, col) <> (currentRowOf p, currentColOf p).
Proof.
  unfold standsOn. rewrite andb_false_iff, !Z.eqb_neq. split.
  - intros [H|H] E; injection E as -> ->; now apply H.
  - intro H. destruct (Z.eq_dec (currentRowOf p) row) as [<-|Hr];
      [|now left].
    right. intros <-. now apply H.
Qed.

(** X6: with one unit of fuel, a King may go exactly to the squares at
    most one row and one column away, its own excepted, that hold no
    piece of its color; the path check it makes never fails. *)
Theorem king_legal_iff
    (fuel : nat) (scene : Scene) (p : ChessPiece) (row col : Z) :
  pieceType p = King ->
  (1 <= fuel)%nat ->
  isValidMove fuel scene (Some p) row col = Some true
  <-> (row, col) <> (currentRowOf p, currentColOf p)
      /\ sameColorAt scene p row col = false
      /\ Z.abs (row - currentRowOf p) <= 1
      /\ Z.abs (col - currentColOf p) <= 1.
Proof.
  intros Hk Hf. rewrite isValidMove_unfold, Hk, null_test_standsOn.
  rewrite <- standsOn_false_iff.
  destruct (standsOn p row col) eqn:Hmove;
    [split; [discriminate | intros [H _]; discriminate]|].
  destruct (sameColorAt scene p row col);
    [split; [discriminate | intros [_ [H _]]; discriminate]|].
  assert ((row, col) <> (currentRowOf p, currentColOf p)) as Hne
    by now apply standsOn_false_iff.
  destruct ((Z.abs (row - currentRowOf p) <=? 1)
            && (Z.abs (col - currentColOf p) <=? 1)
            && (Z.abs (row - currentRowOf p)
                + Z.abs (col - currentColOf p) >? 0)) eqn:Hg.
  - bool_to_prop.
    assert (distance (currentRowOf p) (currentColOf p) row col = 1%nat)
      as Hd by (unfold distance; lia).
    cbn [andThen]. rewrite isPathBlocked_spec.
    + fold (standsOn p row col). rewrite Hmove.
      unfold pathOccupied. rewrite Hd. cbn. tauto.
    + apply aligned_iff. lia.
    + lia.
  - cbn [andThen]. split; [discriminate|].
    intros [_ [_ [Hr Hc]]]. exfalso.
    apply not_true_iff_false in Hg. apply Hg.
    rewrite !andb_true_iff. repeat split.
    + now apply Z.leb_le.
    + now apply Z.leb_le.
    + apply Z.gtb_lt.
      assert (row <> currentRowOf p \/ col <> currentColOf p) as [H|H];
        [|lia|lia].
      destruct (Z.eq_dec row (currentRowOf p)) as [->|H]; [|now left].
      right. intros ->. now apply Hne.
Qed.

Lemma king_legal_iff_witness :
  isValidMove 1 [mkChessPiece 200 200 King true;
                 mkChessPiece 250 200 Rook false]
    (Some (mkChessPiece 200 200 King true)) 4 5 = Some true
  <-> (4, 5) <> (currentRowOf (mkChessPiece 200 200 King true),
                 currentColOf (mkChessPiece 200 200 King true))
      /\ sameColorAt [mkChessPiece 200 200 King true;
                      mkChessPiece 250 200 Rook false]
           (mkChessPiece 200 200 King true) 4 5 = false
      /\ Z.abs (4 - currentRowOf (mkChessPiece 200 200 King true)) <= 1
      /\ Z.abs (5 - currentColOf (mkChessPiece 200 200 King true)) <= 1.
Proof.
  apply (king_legal_iff 1 [mkChessPiece 200 200 King true;
                           mkChessPiece 250 200 Rook false]
           (mkChessPiece 200 200 King true) 4 5).
  - reflexivity.
  - lia.
Defined.

(** ** The double advance, for both colors *)

Lemma isNone_true_iff {A : Type} (o : option A) :
  match o with None => true | Some _ => false end = true <-> o = None.
Proof. destruct o; split; intro H; try reflexivity; discriminate. Qed.

Lemma blackPawn_true_inv (fuel : nat) (scene : Scene) (p : ChessPiece)
    (row col : Z) :
  isValidMoveBlackPawn fuel scene (Some p) row col = Some true ->
  (col = currentColOf p
   /\ (row - currentRowOf p = -1
       \/ (row - currentRowOf p = -2 /\ currentRowOf p = 1)))
  \/ (Z.abs (col - currentColOf p) = 1 /\ row - currentRowOf p = 1).
Proof.
  unfold isValidMoveBlackPawn. cbv zeta.
  destruct ((col - currentColOf p =? 0)
            && match itemAt scene (col * 50 + 25) (row * 50 + 25) with
               | None => true | Some _ => false end) eqn:Hfwd.
  - apply andb_true_iff in Hfwd. destruct Hfwd as [Hc _].
    apply Z.eqb_eq in Hc.
    destruct (row - currentRowOf p =? -1) eqn:H1.
    + intros _. left. apply Z.eqb_eq in H1. split; [lia | now left].
    + destruct ((row - currentRowOf p =? -2) && (currentRowOf p =? 1))
        eqn:H2.
      * intros _. left. bool_to_prop. split; [lia | right; auto].
      * cbn [andThen bind].
        replace (Z.abs (col - currentColOf p) =? 1) with false
          by (symmetry; apply Z.eqb_neq; lia).
        discriminate.
  - cbn [bind]. intro H. injection H as H. bool_to_prop. right. auto.
Qed.

(** X10: the double advance of a Pawn never ends on the board: for a
    Pawn of either color and a destination on rows 0 to 7 two rows away
    from the Pawn, the legality test never answers true. *)
Theorem pawn_never_advances_two_rows_on_board
    (fuel : nat) (scene : Scene) (p : ChessPiece) (row col : Z) :
  pieceType p = Pawn ->
  0 <= row <= 7 ->
  Z.abs (row - currentRowOf p) = 2 ->
  isValidMove fuel scene (Some p) row col <> Some true.
Proof.
  intros Hk Hrow H2. destruct (isWhitePiece p) eqn:Hw.
  - now apply whitePawn_no_double_advance_on_board.
  - rewrite isValidMove_unfold, Hk, Hw.
    destruct ((row =? currentRowOf p) && (col =? currentColOf p));
      [discriminate|].
    destruct (sameColorAt scene p row col); [discriminate|].
    intro Hv. apply blackPawn_true_inv in Hv.
    destruct Hv as [[_ [H|[H H1]]]|[_ H]]; lia.
Qed.

Lemma pawn_never_advances_two_rows_on_board_witness :
  isValidMove 8 startScene (Some (mkChessPiece 200 300 Pawn false)) 4 4
  <> Some true.
Proof.
  apply (pawn_never_advances_two_rows_on_board 8 startScene
           (mkChessPiece 200 300 Pawn false) 4 4).
  - reflexivity.
  - lia.
  - reflexivity.
Defined.

(** ** Invariants of the game *)

Lemma movePiece_inv (fuel : nat) (scene scene' : Scene) (p : ChessPiece)
    (row col : Z) (done : bool) :
  movePiece fuel scene (Some p) row col = Some (done, scene') ->
  (done = false /\ scene' = scene)
  \/ (done = true /\ scene' = applied scene p row col
      /\ standsOn p row col = false
      /\ sameColorAt scene p row col = false).
Proof.
  rewrite movePiece_unfold.
  destruct (isValidMove fuel scene (Some p) row col) as [[|]|] eqn:Hl;
    cbn [bind]; intro H; [| |discriminate]; injection H as <- <-.
  - right. apply isValidMove_true_inv in Hl. tauto.
  - left. auto.
Qed.

Lemma reachable_wf (scene : Scene) :
  reachable scene -> wellFormed scene = true.
Proof.
  induction 1 as [|fuel scene p row col done scene' Hr IH Hin Hm].
  - reflexivity.
  - now apply (movePiece_wellFormed fuel scene scene' p row col done).
Qed.

(** X11: in every scene of a game, whatever the moves asked for, all
    pieces stand on squares of the grid and no two of them on the same
    square. *)
Theorem reachable_wellFormed (scene : Scene) :
  reachable scene -> wellFormed scene = true.
Proof. exact (reachable_wf scene). Qed.

Lemma reachable_after_first_move :
  reachable (setPos startScene (mkChessPiece 200 300 Pawn false) 200 250).
Proof.
  apply (reachable_move 0 startScene (mkChessPiece 200 300 Pawn false)
           5 4 true).
  - apply reachable_start.
  - vm_compute. tauto.
  - reflexivity.
Defined.

Lemma reachable_wellFormed_witness :
  wellFormed (setPos startScene (mkChessPiece 200 300 Pawn false) 200 250)
  = true.
Proof.
  apply (reachable_wellFormed _ reachable_after_first_move).
Defined.

Lemma noPawnOnEndRows_In (scene : Scene) (q : ChessPiece) :
  noPawnOnEndRows scene = true -> In q scene ->
  pieceType q = Pawn -> currentRowOf q <> 0 /\ currentRowOf q <> 7.
Proof.
  unfold noPawnOnEndRows. rewrite forallb_forall. intros H Hq Hk.
  specialize (H q Hq). rewrite Hk in H. cbn in H.
  apply negb_true_iff, orb_false_iff in H. destruct H as [H0 H7].
  now apply Z.eqb_neq in H0, H7.
Qed.

Lemma applied_noPawnOnEndRows (scene : Scene) (p : ChessPiece)
    (row col : Z) :
  wellFormed scene = true -> In p scene ->
  standsOn p row col = false -> sameColorAt scene p row col = false ->
  noPawnOnEndRows scene = true ->
  noPawnOnEndRows (applied scene p row col) = true.
Proof.
  intros Hwf Hin Hmove Hfriend Hinv.
  unfold noPawnOnEndRows. apply forallb_forall. intros q Hq.
  apply applied_In in Hq; try assumption.
  destruct Hq as [->|[Hq _]].
  - unfold arrival. destruct (isPawnPromotion p row) eqn:Hpromo.
    + reflexivity.
    + unfold moved. rewrite currentRowOf_at. cbn [pieceType].
      unfold isPawnPromotion in Hpromo. now rewrite Hpromo.
  - unfold noPawnOnEndRows in Hinv. rewrite forallb_forall in Hinv.
    now apply Hinv.
Qed.

Lemma reachable_noPawnOnEndRows (scene : Scene) :
  reachable scene -> noPawnOnEndRows scene = true.
Proof.
  induction 1 as [|fuel scene p row col done scene' Hr IH Hin Hm].
  - reflexivity.
  - apply movePiece_inv in Hm.
    destruct Hm as [[_ ->]|[_ [-> [Hmove Hfriend]]]]; [assumption|].
    apply applied_noPawnOnEndRows; try assumption.
    now apply reachable_wf.
Qed.

(** X12: in every scene of a game no Pawn stands on row 0 or on row 7:
    a Pawn that lands there is replaced by a Queen in the same call. *)
Theorem reachable_no_pawn_on_rows_0_and_7 (scene : Scene) (q : ChessPiece) :
  reachable scene -> In q scene -> pieceType q = Pawn ->
  currentRowOf q <> 0 /\ currentRowOf q <> 7.
Proof.
  intros Hr. apply noPawnOnEndRows_In. now apply reachable_noPawnOnEndRows.
Qed.

Lemma reachable_no_pawn_on_rows_0_and_7_witness :
  currentRowOf (mkChessPiece 200 250 Pawn false) <> 0
  /\ currentRowOf (mkChessPiece 200 250 Pawn false) <> 7.
Proof.
  apply (reachable_no_pawn_on_rows_0_and_7 _ (mkChessPiece 200 250 Pawn false)
           reachable_after_first_move).
  - vm_compute. tauto.
  - reflexivity.
Defined.

(** ** The number of pieces *)

Lemma countColor_cons (a : ChessPiece) (rest : Scene) (white : bool) :
  countColor (a :: rest) white
  = ((if Bool.eqb (isWhitePiece a) white then 1 else 0)
     + countColor rest white)%nat.
Proof.
  unfold countColor. cbn [filter].
  now destruct (Bool.eqb (isWhitePiece a) white).
Qed.

Lemma countColor_removeItem (scene : Scene) (d : ChessPiece) (white : bool) :
  In d scene ->
  (countColor (removeItem scene d) white
   + (if Bool.eqb (isWhitePiece d) white then 1 else 0))%nat
  = countColor scene white.
Proof.
  induction scene as [|a rest IH]; [intros []|]. intro Hin.
  cbn [removeItem]. destruct (ChessPiece_eqb a d) eqn:E.
  - apply ChessPiece_eqb_eq in E. subst a. rewrite countColor_cons. lia.
  - destruct Hin as [->|Hin];
      [rewrite ChessPiece_eqb_refl in E; discriminate|].
    rewrite !countColor_cons, <- (IH Hin). lia.
Qed.

Lemma countColor_setPos (scene : Scene) (p : ChessPiece) (x y : Z)
    (white : bool) :
  countColor (setPos scene p x y) white = countColor scene white.
Proof.
  induction scene as [|a rest IH]; [reflexivity|].
  cbn [setPos]. destruct (ChessPiece_eqb a p).
  - now rewrite !countColor_cons.
  - now rewrite !countColor_cons, IH.
Qed.

Lemma countColor_applied (scene : Scene) (p : ChessPiece) (row col : Z)
    (white : bool) :
  wellFormed scene = true -> In p scene ->
  standsOn p row col = false -> sameColorAt scene p row col = false ->
  countColor (applied scene p row col) white
  = countColor (capture scene p row col) white.
Proof.
  intros Hwf Hin Hmove Hfriend.
  destruct (capture_effect scene p row col Hwf Hin Hmove Hfriend)
    as [_ [Hin1 _]].
  unfold applied. destruct (isPawnPromotion p row).
  - unfold promotePawn, addItem. rewrite countColor_cons. cbn [isWhitePiece].
    rewrite <- (countColor_removeItem _ p white Hin1). lia.
  - apply countColor_setPos.
Qed.

(** X13: a call of [movePiece] for a piece of a well formed scene never
    changes the number of pieces of the mover's color, and it takes away
    one piece of the other color exactly when it succeeds and the
    destination held a piece; no other piece is ever lost or gained. *)
Theorem movePiece_piece_counts
    (fuel : nat) (scene scene' : Scene) (p : ChessPiece) (row col : Z)
    (done : bool) :
  wellFormed scene = true ->
  In p scene ->
  movePiece fuel scene (Some p) row col = Some (done, scene') ->
  countColor scene' (isWhitePiece p) = countColor scene (isWhitePiece p)
  /\ (countColor scene' (negb (isWhitePiece p))
      + (if done
         then match pieceAt scene row col with Some _ => 1 | None => 0 end
         else 0))%nat
     = countColor scene (negb (isWhitePiece p)).
Proof.
  intros Hwf Hin Hm. apply movePiece_inv in Hm.
  destruct Hm as [[-> ->]|[-> [-> [Hmove Hfriend]]]]; [split; lia|].
  rewrite !countColor_applied by assumption.
  rewrite capture_spec by assumption.
  unfold sameColorAt in Hfriend.
  destruct (pieceAt scene row col) as [d|] eqn:Hd; [|split; lia].
  rewrite Hfriend. cbn [negb].
  apply pieceAt_Some_inv in Hd; [|assumption]. destruct Hd as [Hdin _].
  split.
  - rewrite <- (countColor_removeItem scene d (isWhitePiece p) Hdin).
    rewrite Hfriend. lia.
  - rewrite <- (countColor_removeItem scene d (negb (isWhitePiece p)) Hdin).
    replace (Bool.eqb (isWhitePiece d) (negb (isWhitePiece p))) with true;
      [reflexivity|].
    destruct (isWhitePiece d), (isWhitePiece p); try reflexivity;
      discriminate.
Qed.

Lemma movePiece_piece_counts_witness :
  countColor [mkChessPiece 250 100 Knight true] true
  = countColor [mkChessPiece 200 200 Knight true;
                mkChessPiece 250 100 Rook false] true
  /\ (countColor [mkChessPiece 250 100 Knight true] (negb true)
      + (if true
         then match pieceAt [mkChessPiece 200 200 Knight true;
                             mkChessPiece 250 100 Rook false] 2 5 with
              | Some _ => 1 | None => 0 end
         else 0))%nat
     = countColor [mkChessPiece 200 200 Knight true;
                   mkChessPiece 250 100 Rook false] (negb true).
Proof.
  apply (movePiece_piece_counts 0
           [mkChessPiece 200 200 Knight true; mkChessPiece 250 100 Rook false]
           [mkChessPiece 250 100 Knight true]
           (mkChessPiece 200 200 Knight true) 2 5 true).
  - reflexivity.
  - left. reflexivity.
  - reflexivity.
Defined.

(** ** The squares of the board *)

Lemma In_boardLine (k : Z) : In k [0;1;2;3;4;5;6;7] <-> 0 <= k <= 7.
Proof. simpl. lia. Qed.

Lemma In_boardSquares (row col : Z) :
  In (row, col) boardSquares <-> 0 <= row <= 7 /\ 0 <= col <= 7.
Proof.
  unfold boardSquares. rewrite in_flat_map. split.
  - intros [i [Hi H]]. apply in_map_iff in H. destruct H as [j [E Hj]].
    injection E as -> ->. now rewrite <- !In_boardLine.
  - intros [Hr Hc]. exists row. split; [now apply In_boardLine|].
    apply in_map_iff. exists col. split; [reflexivity|].
    now apply In_boardLine.
Qed.

(** ** The colors of the squares *)

Lemma squareColor_light_iff (row col : Z) :
  squareColor row col = lightGray <-> exists k : Z, row + col = 2 * k.
Proof.
  unfold squareColor, boardRect. cbn [snd].
  pose proof (Z.quot_rem' (row + col) 2) as Hqr.
  pose proof (Z.rem_bound_abs (row + col) 2) as Hb.
  destruct (Z.rem (row + col) 2 =? 0) eqn:E.
  - apply Z.eqb_eq in E. split; [|reflexivity].
    intros _. exists (Z.quot (row + col) 2). lia.
  - apply Z.eqb_neq in E. split; [discriminate|].
    intros [k Hk]. exfalso. lia.
Qed.

Lemma squareColor_dark_iff (row col : Z) :
  squareColor row col = darkGray <-> exists k : Z, row + col = 2 * k + 1.
Proof.
  unfold squareColor, boardRect. cbn [snd].
  pose proof (Z.quot_rem' (row + col) 2) as Hqr.
  pose proof (Z.rem_bound_abs (row + col) 2) as Hb.
  destruct (Z.rem (row + col) 2 =? 0) eqn:E.
  - apply Z.eqb_eq in E. split; [discriminate|].
    intros [k Hk]. exfalso. lia.
  - apply Z.eqb_neq in E. split; [|reflexivity].
    intros _.
    destruct (Z.eq_dec (Z.rem (row + col) 2) 1) as [H1|H1].
    + exists (Z.quot (row + col) 2). lia.
    + exists (Z.quot (row + col) 2 - 1). lia.
Qed.

Lemma squareColor_same (row col row' col' k : Z) :
  row' + col' = row + col + 2 * k ->
  squareColor row' col' = squareColor row col.
Proof.
  intro H. destruct (squareColor row col) eqn:E.
  - apply squareColor_light_iff in E. destruct E as [m Hm].
    apply squareColor_light_iff. exists (m + k). lia.
  - apply squareColor_dark_iff in E. destruct E as [m Hm].
    apply squareColor_dark_iff. exists (m + k). lia.
Qed.

Lemma squareColor_other (row col row' col' k : Z) :
  row' + col' = row + col + 2 * k + 1 ->
  squareColor row' col' <> squareColor row col.
Proof.
  intro H. destruct (squareColor row col) eqn:E.
  - apply squareColor_light_iff in E. destruct E as [m Hm].
    intro E'. apply squareColor_light_iff in E'. destruct E' as [m' Hm'].
    lia.
  - apply squareColor_dark_iff in E. destruct E as [m Hm].
    intro E'. apply squareColor_dark_iff in E'. destruct E' as [m' Hm'].
    lia.
Qed.

(** X15: [drawBoard] draws the 64 squares of the board, each with its
    corner at [(col * 50, row * 50)], as a checkerboard: two squares next
    to each other in a row or in a column never have the same color. *)
Theorem drawBoard_is_a_checkerboard :
  length drawBoard = 64%nat
  /\ (forall row col : Z,
        0 <= row <= 7 -> 0 <= col <= 7 ->
        In (col * 50, row * 50, squareColor row col) drawBoard)
  /\ (forall row col : Z,
        squareColor row col <> squareColor row (col + 1)
        /\ squareColor row col <> squareColor (row + 1) col).
Proof.
  split; [reflexivity|]. split.
  - intros row col Hr Hc. unfold drawBoard. apply in_flat_map.
    exists row. split; [now apply In_boardLine|].
    apply in_map_iff. exists col. split; [reflexivity|].
    now apply In_boardLine.
  - intros row col. split; apply not_eq_sym.
    + apply (squareColor_other row col row (col + 1) 0). lia.
    + apply (squareColor_other row col (row + 1) col 0). lia.
Qed.

Lemma drawBoard_is_a_checkerboard_witness :
  In (3 * 50, 2 * 50, squareColor 2 3) drawBoard.
Proof.
  apply (proj1 (proj2 drawBoard_is_a_checkerboard) 2 3); lia.
Defined.

(** X16: a legal move of a Bishop ends on a square of the color of the
    square it starts from, and a legal move of a Knight on a square of
    the other color. *)
Theorem bishop_keeps_and_knight_changes_square_color
    (fuel : nat) (scene : Scene) (p : ChessPiece) (row col : Z) :
  isValidMove fuel scene (Some p) row col = Some true ->
  (pieceType p = Bishop ->
   squareColor row col = squareColor (currentRowOf p) (currentColOf p))
  /\ (pieceType p = Knight ->
      squareColor row col <> squareColor (currentRowOf p) (currentColOf p)).
Proof.
  intro Hl. split; intro Hk.
  - rewrite isValidMove_unfold, Hk in Hl.
    destruct ((row =? currentRowOf p) && (col =? currentColOf p));
      [discriminate|].
    destruct (sameColorAt scene p row col); [discriminate|].
    destruct (Z.abs (row - currentRowOf p)
              =? Z.abs (col - currentColOf p)) eqn:Hd;
      [|discriminate].
    apply Z.eqb_eq in Hd.
    destruct (Z.eq_dec (row - currentRowOf p) (col - currentColOf p))
      as [E|E].
    + apply (squareColor_same _ _ _ _ (col - currentColOf p)). lia.
    + apply (squareColor_same _ _ _ _ 0). lia.
  - rewrite knight_isValidMove in Hl by assumption.
    injection Hl as Hl. apply andb_true_iff in Hl. destruct Hl as [Ho _].
    unfold knightOffset in Ho. apply orb_true_iff in Ho.
    assert (exists k, row + col
                      = currentRowOf p + currentColOf p + 2 * k + 1)
      as [k Hk'].
    { destruct Ho as [Ho|Ho]; bool_to_prop.
      - destruct (Z.abs_spec (row - currentRowOf p)) as [[_ Ha]|[_ Ha]];
          destruct (Z.abs_spec (col - currentColOf p)) as [[_ Hb]|[_ Hb]].
        + exists 1. lia.
        + exists 0. lia.
        + exists (-1). lia.
        + exists (-2). lia.
      - destruct (Z.abs_spec (row - currentRowOf p)) as [[_ Ha]|[_ Ha]];
          destruct (Z.abs_spec (col - currentColOf p)) as [[_ Hb]|[_ Hb]].
        + exists 1. lia.
        + exists (-1). lia.
        + exists 0. lia.
        + exists (-2). lia. }
    now apply (squareColor_other _ _ _ _ k).
Qed.

Lemma bishop_keeps_and_knight_changes_square_color_witness :
  (Knight = Bishop -> squareColor 2 2 = squareColor 0 1)
  /\ (Knight = Knight -> squareColor 2 2 <> squareColor 0 1).
Proof.
  apply (bishop_keeps_and_knight_changes_square_color 0 startScene
           (mkChessPiece 50 0 Knight true) 2 2).
  reflexivity.
Defined.

(** ** There and back *)

Lemma setPos_back (scene : Scene) (p : ChessPiece) (x y : Z) :
  ~ In (mkChessPiece x y (pieceType p) (isWhitePiece p)) scene ->
  setPos (setPos scene p x y)
         (mkChessPiece x y (pieceType p) (isWhitePiece p))
         (pos_x p) (pos_y p)
  = scene.
Proof.
  induction scene as [|a rest IH]; [reflexivity|]. intro Hnot.
  cbn [setPos]. destruct (ChessPiece_eqb a p) eqn:E.
  - apply ChessPiece_eqb_eq in E. subst a.
    cbn [setPos]. rewrite ChessPiece_eqb_refl. cbn [pieceType isWhitePiece].
    now destruct p.
  - cbn [setPos].
    replace (ChessPiece_eqb a
               (mkChessPiece x y (pieceType p) (isWhitePiece p)))
      with false.
    + f_equal. apply IH. intro H. apply Hnot. now right.
    + symmetry. apply ChessPiece_eqb_neq. intros ->. apply Hnot. now left.
Qed.

Lemma capture_nothing (scene : Scene) (p : ChessPiece) (row col : Z) :
  wellFormed scene = true ->
  standsOn p row col = false ->
  pieceAt scene row col = None ->
  capture scene p row col = scene.
Proof.
  intros Hwf Hmove Hfree. rewrite capture_spec by assumption.
  now rewrite Hfree.
Qed.

(** X17: on a well formed scene, when a piece other than a Pawn moves to
    an empty square and the move back to the square it came from is legal
    in its turn, making both moves gives back the very scene one started
    from. *)
Theorem movePiece_there_and_back
    (fuel : nat) (scene scene1 : Scene) (p : ChessPiece) (row col : Z) :
  wellFormed scene = true ->
  In p scene ->
  pieceType p <> Pawn ->
  pieceAt scene row col = None ->
  movePiece fuel scene (Some p) row col = Some (true, scene1) ->
  isValidMove fuel scene1 (Some (moved p row col))
    (currentRowOf p) (currentColOf p) = Some true ->
  movePiece fuel scene1 (Some (moved p row col))
    (currentRowOf p) (currentColOf p) = Some (true, scene).
Proof.
  intros Hwf Hin Hk Hfree Hm Hback.
  assert (forall q r, pieceType q <> Pawn -> isPawnPromotion q r = false)
    as Hnopromo.
  { intros q r Hq. unfold isPawnPromotion.
    replace (PieceType_eqb (pieceType q) Pawn) with false; [reflexivity|].
    symmetry. apply not_true_iff_false. intro H.
    now apply PieceType_eqb_eq in H. }
  apply movePiece_inv in Hm.
  destruct Hm as [[Habs _]|[_ [-> [Hmove Hfriend]]]]; [discriminate|].
  pose proof (applied_wellFormed scene p row col Hwf Hin Hmove Hfriend)
    as Hwf1.
  pose proof (applied_pieceAt scene p row col Hwf Hin Hmove Hfriend
                (currentRowOf p) (currentColOf p)) as Hsrc.
  rewrite standsOn_own_square in Hsrc.
  fold (standsOn p row col) in Hsrc. rewrite Hmove in Hsrc.
  rewrite movePiece_unfold, Hback. cbn [bind]. f_equal. f_equal.
  apply isValidMove_true_inv in Hback. destruct Hback as [Hmove' _].
  unfold applied at 1.
  rewrite (Hnopromo (moved p row col)) by assumption.
  rewrite capture_nothing by assumption.
  unfold applied. rewrite (Hnopromo p) by assumption.
  rewrite capture_nothing by assumption.
  pose proof (wellFormed_onGrid scene p Hwf Hin) as Hgrid.
  unfold onGrid in Hgrid. bool_to_prop.
  replace (currentColOf p * 50) with (pos_x p) by lia.
  replace (currentRowOf p * 50) with (pos_y p) by lia.
  unfold moved. apply setPos_back.
  intro Hq.
  assert (standsOn (mkChessPiece (col * 50) (row * 50) (pieceType p)
                      (isWhitePiece p)) row col = true) as Hs
    by now rewrite standsOn_at, !Z.eqb_refl.
  rewrite (pieceAt_Some_intro scene _ row col Hwf Hq Hs) in Hfree.
  discriminate.
Qed.

Lemma movePiece_there_and_back_witness :
  movePiece 0 [mkChessPiece 250 100 Knight true]
    (Some (moved (mkChessPiece 200 200 Knight true) 2 5))
    (currentRowOf (mkChessPiece 200 200 Knight true))
    (currentColOf (mkChessPiece 200 200 Knight true))
  = Some (true, [mkChessPiece 200 200 Knight true]).
Proof.
  apply (movePiece_there_and_back 0 [mkChessPiece 200 200 Knight true]
           [mkChessPiece 250 100 Knight true]
           (mkChessPiece 200 200 Knight true) 2 5).
  - reflexivity.
  - left. reflexivity.
  - discriminate.
  - reflexivity.
  - reflexivity.
  - reflexivity.
Defined.

(** * The legality test with rectangles in the scene *)

(** ** The test on pieces alone is an instance *)

Lemma isPathBlocked_loop_as_hitTest (scene : Scene) (fuel : nat)
    (endRow endCol dRow dCol : Z) :
  forall row col : Z,
    isPathBlocked_loop fuel scene row col endRow endCol dRow dCol
    = isPathBlocked_loopOn (itemAt scene) fuel
        row col endRow endCol dRow dCol.
Proof.
  induction fuel as [|fuel IH]; intros row col; [reflexivity|].
  cbn [isPathBlocked_loop isPathBlocked_loopOn].
  destruct (negb (row =? endRow) || negb (col =? endCol)); [|reflexivity].
  destruct (itemAt scene (col * 50 + 25) (row * 50 + 25));
    [reflexivity | apply IH].
Qed.

Lemma isPathBlocked_as_hitTest (scene : Scene) (fuel : nat)
    (row col row' col' : Z) :
  isPathBlocked fuel scene row col row' col'
  = isPathBlockedOn (itemAt scene) fuel row col row' col'.
Proof.
  unfold isPathBlocked, isPathBlockedOn.
  destruct ((row =? row') && (col =? col')); [reflexivity|].
  apply isPathBlocked_loop_as_hitTest.
Qed.

(** On a scene that holds pieces only, the legality test is the test on
    the hit test [itemAt] of that scene. *)
Lemma isValidMove_as_hitTest (scene : Scene) (fuel : nat)
    (piece : option ChessPiece) (row col : Z) :
  isValidMove fuel scene piece row col
  = isValidMoveOn (itemAt scene) fuel piece row col.
Proof.
  destruct piece as [p|]; [|reflexivity].
  unfold isValidMove, isValidMoveOn, isValidMoveWhitePawn,
    isValidMoveWhitePawnOn, isValidMoveBlackPawn, isValidMoveBlackPawnOn.
  now rewrite isPathBlocked_as_hitTest.
Qed.

Lemma hitTest_pieces (scene : Scene) (x y : Z) :
  hitTest (map pieceItem scene) x y = itemAt scene x y.
Proof.
  unfold hitTest, itemAt. induction scene as [|a rest IH]; [reflexivity|].
  cbn [map find itemContains]. now destruct (shapeContains a x y).
Qed.

(** ** What [isPathBlocked] answers *)

Lemma isPathBlockedOn_unfold (hit : HitTest) (fuel : nat)
    (startRow startCol endRow endCol : Z) :
  isPathBlockedOn hit fuel startRow startCol endRow endCol =
  if (startRow =? endRow) && (startCol =? endCol) then Some false
  else
    isPathBlocked_loopOn hit fuel
      (startRow + direction startRow endRow)
      (startCol + direction startCol endCol)
      endRow endCol (direction startRow endRow) (direction startCol endCol).
Proof. reflexivity. Qed.

Lemma isPathBlocked_loopOn_spec (hit : HitTest) (dRow dCol : Z) (n : nat) :
  dRow <> 0 \/ dCol <> 0 ->
  forall (fuel : nat) (row col endRow endCol : Z),
    endRow = row + Z.of_nat n * dRow ->
    endCol = col + Z.of_nat n * dCol ->
    (n < fuel)%nat ->
    isPathBlocked_loopOn hit fuel row col endRow endCol dRow dCol
    = Some (shownAlong hit row col dRow dCol n).
Proof.
  intro Hd. induction n as [|n IH]; intros fuel row col endRow endCol Hr Hc Hf.
  - destruct fuel as [|fuel]; [lia|]. cbn [isPathBlocked_loopOn shownAlong].
    replace (row =? endRow) with true by (symmetry; apply Z.eqb_eq; lia).
    replace (col =? endCol) with true by (symmetry; apply Z.eqb_eq; lia).
    reflexivity.
  - destruct fuel as [|fuel]; [lia|].
    cbn [isPathBlocked_loopOn shownAlong].
    replace (negb (row =? endRow) || negb (col =? endCol)) with true.
    + fold (shownAt hit row col).
      destruct (shownAt hit row col) as [d|]; [reflexivity|].
      cbn [orb]. apply IH; lia.
    + symmetry. apply orb_true_iff.
      destruct Hd as [Hd|Hd]; [left|right];
        apply negb_true_iff, Z.eqb_neq; nia.
Qed.

Lemma isPathBlockedOn_spec (hit : HitTest) (fuel : nat)
    (row col row' col' : Z) :
  aligned row col row' col' = true ->
  (distance row col row' col' <= fuel)%nat ->
  isPathBlockedOn hit fuel row col row' col'
  = Some (if (row =? row') && (col =? col') then false
          else pathShown hit row col row' col').
Proof.
  intros Ha Hf. rewrite isPathBlockedOn_unfold.
  destruct ((row =? row') && (col =? col')) eqn:Hsame; [reflexivity|].
  pose proof (aligned_steps _ _ _ _ Ha) as [Hr Hc].
  pose proof (distance_pos _ _ _ _ Hsame) as Hpos.
  unfold pathShown.
  assert (Z.of_nat (distance row col row' col' - 1)
          = Z.of_nat (distance row col row' col') - 1) as Hpred by lia.
  apply isPathBlocked_loopOn_spec.
  - now apply direction_nonzero.
  - rewrite Hpred. rewrite Hr at 1. ring.
  - rewrite Hpred. rewrite Hc at 1. ring.
  - lia.
Qed.

Lemma shownAlong_true_iff (hit : HitTest) (dRow dCol : Z) (n : nat) :
  forall row col : Z,
    shownAlong hit row col dRow dCol n = true
    <-> exists k : Z,
          0 <= k < Z.of_nat n
          /\ shownAt hit (row + k * dRow) (col + k * dCol) <> None.
Proof.
  induction n as [|n IH]; intros row col.
  - cbn [shownAlong]. split; [discriminate|]. intros [k [Hk _]]. lia.
  - cbn [shownAlong]. rewrite orb_true_iff, IH. split.
    + intros [H|[k [Hk H]]].
      * exists 0. split; [lia|].
        rewrite !Z.mul_0_l, !Z.add_0_r.
        destruct (shownAt hit row col); [discriminate|discriminate].
      * exists (k + 1). split; [lia|].
        replace (row + (k + 1) * dRow) with (row + dRow + k * dRow) by ring.
        replace (col + (k + 1) * dCol) with (col + dCol + k * dCol) by ring.
        assumption.
    + intros [k [Hk H]]. destruct (Z.eq_dec k 0) as [->|Hk0].
      * left. rewrite !Z.mul_0_l, !Z.add_0_r in H.
        destruct (shownAt hit row col); [reflexivity|congruence].
      * right. exists (k - 1). split; [lia|].
        replace (row + dRow + (k - 1) * dRow) with (row + k * dRow) by ring.
        replace (col + dCol + (k - 1) * dCol) with (col + k * dCol) by ring.
        assumption.
Qed.

Lemma pathShown_true_iff (hit : HitTest) (row col row' col' : Z) :
  (row =? row') && (col =? col') = false ->
  pathShown hit row col row' col' = true
  <-> exists k : Z,
        0 < k < Z.of_nat (distance row col row' col')
        /\ shownAt hit (row + k * direction row row')
                       (col + k * direction col col') <> None.
Proof.
  intro Hsame. pose proof (distance_pos _ _ _ _ Hsame) as Hpos.
  unfold pathShown. rewrite shownAlong_true_iff. split.
  - intros [k [Hk H]]. exists (k + 1). split; [lia|].
    replace (row + (k + 1) * direction row row')
      with (row + direction row row' + k * direction row row') by ring.
    replace (col + (k + 1) * direction col col')
      with (col + direction col col' + k * direction col col') by ring.
    assumption.
  - intros [k [Hk H]]. exists (k - 1). split; [lia|].
    replace (row + direction row row' + (k - 1) * direction row row')
      with (row + k * direction row row') by ring.
    replace (col + direction col col' + (k - 1) * direction col col')
      with (col + k * direction col col') by ring.
    assumption.
Qed.

Lemma pathShown_false_iff (hit : HitTest) (row col row' col' : Z) :
  (row =? row') && (col =? col') = false ->
  pathShown hit row col row' col' = false
  <-> pathClearOn hit row col row' col'.
Proof.
  intro Hsame.
  pose proof (pathShown_true_iff hit row col row' col' Hsame) as Hiff.
  unfold pathClearOn. split.
  - intros Hocc k Hk.
    destruct (shownAt hit (row + k * direction row row')
                          (col + k * direction col col')) eqn:E;
      [|reflexivity].
    assert (pathShown hit row col row' col' = true) as Habs;
      [|congruence].
    apply Hiff. exists k. split; [assumption|]. rewrite E. discriminate.
  - intro Hall. apply not_true_iff_false. intro Hocc.
    apply Hiff in Hocc. destruct Hocc as [k [Hk H]]. apply H.
    now apply Hall.
Qed.

(** X1: whatever items the scene holds, between two squares on a common
    row, column or diagonal, with fuel for their distance,
    [isPathBlocked] answers true exactly when, at the centre of one of
    the squares strictly between them, the topmost item is a piece, and
    false otherwise; the two end squares are never looked at, and a piece
    that lies under a rectangle is not seen. *)
Theorem isPathBlockedOn_true_iff_piece_shown_between
    (hit : HitTest) (fuel : nat) (row col row' col' : Z) :
  aligned row col row' col' = true ->
  (distance row col row' col' <= fuel)%nat ->
  (isPathBlockedOn hit fuel row col row' col' = Some true
   <-> exists k : Z,
         0 < k < Z.of_nat (distance row col row' col')
         /\ shownAt hit (row + k * direction row row')
                        (col + k * direction col col') <> None)
  /\ (isPathBlockedOn hit fuel row col row' col' = Some false
      <-> pathClearOn hit row col row' col').
Proof.
  intros Ha Hf. rewrite (isPathBlockedOn_spec hit fuel _ _ _ _ Ha Hf).
  destruct ((row =? row') && (col =? col')) eqn:Hsame.
  - assert (distance row col row' col' = 0%nat) as Hd0.
    { unfold distance. bool_to_prop. lia. }
    unfold pathClearOn. rewrite Hd0.
    split; split; try discriminate; try reflexivity.
    + intros [k [Hk _]]. lia.
    + intros _ k Hk. lia.
  - pose proof (pathShown_true_iff hit row col row' col' Hsame) as Hiff.
    pose proof (pathShown_false_iff hit row col row' col' Hsame) as Hiff'.
    destruct (pathShown hit row col row' col') eqn:Hocc.
    + split; split; try discriminate; try reflexivity.
      * intros _. now apply Hiff.
      * intro Hall. apply Hiff' in Hall. discriminate.
    + split; split; try discriminate; try reflexivity.
      * intro Hex. apply Hiff in Hex. discriminate.
      * intros _. now apply Hiff'.
Qed.

Lemma isPathBlockedOn_true_iff_piece_shown_between_witness :
  (isPathBlockedOn
     (hitTest [rectItem 100 100;
               pieceItem (mkChessPiece 100 100 Pawn false);
               pieceItem (mkChessPiece 0 0 Queen true)])
     4 0 0 4 4 = Some true
   <-> exists k : Z,
         0 < k < Z.of_nat (distance 0 0 4 4)
         /\ shownAt
              (hitTest [rectItem 100 100;
                        pieceItem (mkChessPiece 100 100 Pawn false);
                        pieceItem (mkChessPiece 0 0 Queen true)])
              (0 + k * direction 0 4) (0 + k * direction 0 4) <> None)
  /\ (isPathBlockedOn
        (hitTest [rectItem 100 100;
                  pieceItem (mkChessPiece 100 100 Pawn false);
                  pieceItem (mkChessPiece 0 0 Queen true)])
        4 0 0 4 4 = Some false
      <-> pathClearOn
            (hitTest [rectItem 100 100;
                      pieceItem (mkChessPiece 100 100 Pawn false);
                      pieceItem (mkChessPiece 0 0 Queen true)])
            0 0 4 4).
Proof.
  apply (isPathBlockedOn_true_iff_piece_shown_between
           (hitTest [rectItem 100 100;
                     pieceItem (mkChessPiece 100 100 Pawn false);
                     pieceItem (mkChessPiece 0 0 Queen true)])
           4 0 0 4 4).
  - reflexivity.
  - vm_compute. lia.
Defined.

(** A piece under a rectangle is passed over: with the Pawn on (2,2)
    covered, the Queen on (0,0) may go to (4,4); without the rectangle
    it may not. *)
Example piece_under_rectangle_is_passed_over :
  isValidMoveOn
    (hitTest [rectItem 100 100;
              pieceItem (mkChessPiece 100 100 Pawn false);
              pieceItem (mkChessPiece 0 0 Queen true)])
    4 (Some (mkChessPiece 0 0 Queen true)) 4 4 = Some true
  /\ isValidMoveOn
       (hitTest [pieceItem (mkChessPiece 100 100 Pawn false);
                 pieceItem (mkChessPiece 0 0 Queen true)])
       4 (Some (mkChessPiece 0 0 Queen true)) 4 4 = Some false
  /\ isValidMove 4 [mkChessPiece 100 100 Pawn false;
                    mkChessPiece 0 0 Queen true]
       (Some (mkChessPiece 0 0 Queen true)) 4 4 = Some false.
Proof. repeat split. Qed.

(** ** The moves of the sliding pieces and of the Pawns *)

Lemma isValidMoveOn_unfold (hit : HitTest) (fuel : nat) (p : ChessPiece)
    (newRow newCol : Z) :
  isValidMoveOn hit fuel (Some p) newRow newCol =
  if standsOn p newRow newCol then Some false
  else if sameColorShown hit p newRow newCol then Some false
  else
    match pieceType p with
    | Pawn =>
        if isWhitePiece p
        then isValidMoveWhitePawnOn hit fuel (Some p) newRow newCol
        else isValidMoveBlackPawnOn hit fuel (Some p) newRow newCol
    | Rook =>
        if negb (newRow =? currentRowOf p) && negb (newCol =? currentColOf p)
        then Some false
        else
          blocked <-
            andThen ((newRow - currentRowOf p >? 1)
                     || (newCol - currentColOf p >? 1))
              (isPathBlockedOn hit fuel
                 (currentRowOf p) (currentColOf p) newRow newCol) ;;
          if blocked then Some false else Some true
    | Knight => Some (knightOffset p newRow newCol)
    | Bishop =>
        andThen (Z.abs (newRow - currentRowOf p)
                 =? Z.abs (newCol - currentColOf p))
          (notM (isPathBlockedOn hit fuel
                   (currentRowOf p) (currentColOf p) newRow newCol))
    | Queen =>
        andThen ((Z.abs (newRow - currentRowOf p)
                  =? Z.abs (newCol - currentColOf p))
                 || (newRow - currentRowOf p =? 0)
                 || (newCol - currentColOf p =? 0))
          (notM (isPathBlockedOn hit fuel
                   (currentRowOf p) (currentColOf p) newRow newCol))
    | King =>
        andThen ((Z.abs (newRow - currentRowOf p) <=? 1)
                 && (Z.abs (newCol - currentColOf p) <=? 1)
                 && (Z.abs (newRow - currentRowOf p)
                     + Z.abs (newCol - currentColOf p) >? 0))
          (notM (isPathBlockedOn hit fuel
                   (currentRowOf p) (currentColOf p) newRow newCol))
    end.
Proof.
  rewrite <- null_test_standsOn. reflexivity.
Qed.

Lemma guarded_path_checkOn (hit : HitTest) (fuel : nat) (p : ChessPiece)
    (row col : Z) (guard : bool) :
  (guard = true ->
   aligned (currentRowOf p) (currentColOf p) row col = true) ->
  (distance (currentRowOf p) (currentColOf p) row col <= fuel)%nat ->
  standsOn p row col = false ->
  andThen guard
    (notM (isPathBlockedOn hit fuel
             (currentRowOf p) (currentColOf p) row col))
  = Some (guard
          && negb (pathShown hit
                     (currentRowOf p) (currentColOf p) row col)).
Proof.
  intros Hg Hf Hmove. destruct guard; [|reflexivity]. cbn [andThen andb].
  rewrite (isPathBlockedOn_spec _ _ _ _ _ _ (Hg eq_refl) Hf).
  fold (standsOn p row col). rewrite Hmove. reflexivity.
Qed.

Lemma sliding_legal_iffOn (hit : HitTest) (p : ChessPiece) (row col : Z)
    (guard : bool) :
  standsOn p row col = false ->
  guard && negb (pathShown hit
                   (currentRowOf p) (currentColOf p) row col) = true
  <-> guard = true
      /\ pathClearOn hit (currentRowOf p) (currentColOf p) row col.
Proof.
  intro Hmove. rewrite andb_true_iff, negb_true_iff.
  rewrite pathShown_false_iff; [reflexivity|exact Hmove].
Qed.

(** X4: whatever items the scene holds, with fuel for the distance of
    the move, a Bishop may go exactly to the squares other than its own
    on a diagonal through its square on which the topmost item is not a
    piece of its color, and towards which the topmost item of no square
    strictly in between is a piece. *)
Theorem bishop_legal_iff_on_any_scene
    (hit : HitTest) (fuel : nat) (p : ChessPiece) (row col : Z) :
  pieceType p = Bishop ->
  (distance (currentRowOf p) (currentColOf p) row col <= fuel)%nat ->
  isValidMoveOn hit fuel (Some p) row col = Some true
  <-> (row, col) <> (currentRowOf p, currentColOf p)
      /\ sameColorShown hit p row col = false
      /\ Z.abs (row - currentRowOf p) = Z.abs (col - currentColOf p)
      /\ pathClearOn hit (currentRowOf p) (currentColOf p) row col.
Proof.
  intros Hk Hf. rewrite isValidMoveOn_unfold, Hk.
  rewrite <- standsOn_false_iff.
  destruct (standsOn p row col) eqn:Hmove;
    [split; [discriminate | intros [H _]; discriminate]|].
  destruct (sameColorShown hit p row col);
    [split; [discriminate | intros [_ [H _]]; discriminate]|].
  rewrite guarded_path_checkOn; try assumption.
  - split.
    + intro H. injection H as H. apply sliding_legal_iffOn in H;
        [|assumption].
      destruct H as [Hg Hc]. bool_to_prop. auto.
    + intros [_ [_ [Hg Hc]]]. f_equal. apply sliding_legal_iffOn;
        [assumption|]. split; [now apply Z.eqb_eq | assumption].
  - intro Hg. apply aligned_iff. bool_to_prop. auto.
Qed.

Lemma bishop_legal_iff_on_any_scene_witness :
  isValidMoveOn
    (hitTest [rectItem 100 100;
              pieceItem (mkChessPiece 100 100 Pawn false);
              pieceItem (mkChessPiece 0 0 Bishop true)])
    4 (Some (mkChessPiece 0 0 Bishop true)) 4 4 = Some true
  <-> (4, 4) <> (currentRowOf (mkChessPiece 0 0 Bishop true),
                 currentColOf (mkChessPiece 0 0 Bishop true))
      /\ sameColorShown
           (hitTest [rectItem 100 100;
                     pieceItem (mkChessPiece 100 100 Pawn false);
                     pieceItem (mkChessPiece 0 0 Bishop true)])
           (mkChessPiece 0 0 Bishop true) 4 4 = false
      /\ Z.abs (4 - currentRowOf (mkChessPiece 0 0 Bishop true))
         = Z.abs (4 - currentColOf (mkChessPiece 0 0 Bishop true))
      /\ pathClearOn
           (hitTest [rectItem 100 100;
                     pieceItem (mkChessPiece 100 100 Pawn false);
                     pieceItem (mkChessPiece 0 0 Bishop true)])
           (currentRowOf (mkChessPiece 0 0 Bishop true))
           (currentColOf (mkChessPiece 0 0 Bishop true)) 4 4.
Proof.
  apply (bishop_legal_iff_on_any_scene
           (hitTest [rectItem 100 100;
                     pieceItem (mkChessPiece 100 100 Pawn false);
                     pieceItem (mkChessPiece 0 0 Bishop true)])
           4 (mkChessPiece 0 0 Bishop true) 4 4).
  - reflexivity.
  - vm_compute. lia.
Defined.

(** X5: whatever items the scene holds, with fuel for the distance of
    the move, a Queen may go exactly to the squares other than its own on
    a row, column or diagonal through its square on which the topmost
    item is not a piece of its color, and towards which the topmost item
    of no square strictly in between is a piece. *)
Theorem queen_legal_iff_on_any_scene
    (hit : HitTest) (fuel : nat) (p : ChessPiece) (row col : Z) :
  pieceType p = Queen ->
  (distance (currentRowOf p) (currentColOf p) row col <= fuel)%nat ->
  isValidMoveOn hit fuel (Some p) row col = Some true
  <-> (row, col) <> (currentRowOf p, currentColOf p)
      /\ sameColorShown hit p row col = false
      /\ (Z.abs (row - currentRowOf p) = Z.abs (col - currentColOf p)
          \/ row = currentRowOf p \/ col = currentColOf p)
      /\ pathClearOn hit (currentRowOf p) (currentColOf p) row col.
Proof.
  intros Hk Hf. rewrite isValidMoveOn_unfold, Hk.
  rewrite <- standsOn_false_iff.
  destruct (standsOn p row col) eqn:Hmove;
    [split; [discriminate | intros [H _]; discriminate]|].
  destruct (sameColorShown hit p row col);
    [split; [discriminate | intros [_ [H _]]; discriminate]|].
  assert ((Z.abs (row - currentRowOf p) =? Z.abs (col - currentColOf p))
          || (row - currentRowOf p =? 0) || (col - currentColOf p =? 0)
          = true
          <-> Z.abs (row - currentRowOf p) = Z.abs (col - currentColOf p)
              \/ row = currentRowOf p \/ col = currentColOf p) as Hgeo.
  { rewrite !orb_true_iff, !Z.eqb_eq. split.
    - intros [[H|H]|H]; [auto | right; left; lia | right; right; lia].
    - intros [H|[H|H]]; [auto | left; right; lia | right; lia]. }
  rewrite guarded_path_checkOn; try assumption.
  - split.
    + intro H. injection H as H. apply sliding_legal_iffOn in H;
        [|assumption].
      destruct H as [Hg Hc]. apply Hgeo in Hg. auto.
    + intros [_ [_ [Hg Hc]]]. f_equal. apply sliding_legal_iffOn;
        [assumption|]. split; [now apply Hgeo | assumption].
  - intro Hg. apply aligned_iff. apply Hgeo in Hg. tauto.
Qed.

Lemma queen_legal_iff_on_any_scene_witness :
  isValidMoveOn
    (hitTest [rectItem 100 100;
              pieceItem (mkChessPiece 100 100 Pawn false);
              pieceItem (mkChessPiece 0 0 Queen true)])
    4 (Some (mkChessPiece 0 0 Queen true)) 4 4 = Some true
  <-> (4, 4) <> (currentRowOf (mkChessPiece 0 0 Queen true),
                 currentColOf (mkChessPiece 0 0 Queen true))
      /\ sameColorShown
           (hitTest [rectItem 100 100;
                     pieceItem (mkChessPiece 100 100 Pawn false);
                     pieceItem (mkChessPiece 0 0 Queen true)])
           (mkChessPiece 0 0 Queen true) 4 4 = false
      /\ (Z.abs (4 - currentRowOf (mkChessPiece 0 0 Queen true))
          = Z.abs (4 - currentColOf (mkChessPiece 0 0 Queen true))
          \/ 4 = currentRowOf (mkChessPiece 0 0 Queen true)
          \/ 4 = currentColOf (mkChessPiece 0 0 Queen true))
      /\ pathClearOn
           (hitTest [rectItem 100 100;
                     pieceItem (mkChessPiece 100 100 Pawn false);
                     pieceItem (mkChessPiece 0 0 Queen true)])
           (currentRowOf (mkChessPiece 0 0 Queen true))
           (currentColOf (mkChessPiece 0 0 Queen true)) 4 4.
Proof.
  apply (queen_legal_iff_on_any_scene
           (hitTest [rectItem 100 100;
                     pieceItem (mkChessPiece 100 100 Pawn false);
                     pieceItem (mkChessPiece 0 0 Queen true)])
           4 (mkChessPiece 0 0 Queen true) 4 4).
  - reflexivity.
  - vm_compute. lia.
Defined.

(** X7: whatever items the scene holds, with fuel for the distance of
    the move, a Rook may go exactly to the squares other than its own on
    its row or column on which the topmost item is not a piece of its
    color, provided that, when the signed row or column delta exceeds 1,
    the topmost item of no square strictly in between is a piece; towards
    lower rows or columns the squares in between are not looked at. *)
Theorem rook_legal_iff_on_any_scene
    (hit : HitTest) (fuel : nat) (p : ChessPiece) (row col : Z) :
  pieceType p = Rook ->
  (distance (currentRowOf p) (currentColOf p) row col <= fuel)%nat ->
  isValidMoveOn hit fuel (Some p) row col = Some true
  <-> (row, col) <> (currentRowOf p, currentColOf p)
      /\ sameColorShown hit p row col = false
      /\ (row = currentRowOf p \/ col = currentColOf p)
      /\ (row - currentRowOf p > 1 \/ col - currentColOf p > 1 ->
          pathClearOn hit (currentRowOf p) (currentColOf p) row col).
Proof.
  intros Hk Hf. rewrite isValidMoveOn_unfold, Hk.
  rewrite <- standsOn_false_iff.
  destruct (standsOn p row col) eqn:Hmove;
    [split; [discriminate | intros [H _]; discriminate]|].
  destruct (sameColorShown hit p row col);
    [split; [discriminate | intros [_ [H _]]; discriminate]|].
  destruct (negb (row =? currentRowOf p) && negb (col =? currentColOf p))
    eqn:Hstraight.
  - bool_to_prop. split; [discriminate|]. intros [_ [_ [[H'|H'] _]]]; lia.
  - assert (row = currentRowOf p \/ col = currentColOf p) as Hs.
    { apply andb_false_iff in Hstraight.
      destruct Hstraight; bool_to_prop; auto. }
    destruct ((row - currentRowOf p >? 1) || (col - currentColOf p >? 1))
      eqn:Hup.
    + assert (row - currentRowOf p > 1 \/ col - currentColOf p > 1) as Hup'.
      { apply orb_true_iff in Hup. destruct Hup; bool_to_prop; lia. }
      cbn [andThen]. rewrite isPathBlockedOn_spec;
        [|now apply aligned_iff; tauto|assumption].
      fold (standsOn p row col). rewrite Hmove. cbn [bind].
      destruct (pathShown hit (currentRowOf p) (currentColOf p)
                  row col) eqn:Hocc.
      * split; [discriminate|]. intros [_ [_ [_ Hc]]].
        apply pathShown_false_iff in Hc; [congruence|assumption|assumption].
      * split; [|reflexivity]. intros _. repeat split; try assumption.
        intros _. now apply pathShown_false_iff.
    + cbn [andThen bind]. split; [|reflexivity].
      intros _. repeat split; try assumption.
      intro Hup'. exfalso. bool_to_prop. lia.
Qed.

Lemma rook_legal_iff_on_any_scene_witness :
  isValidMoveOn
    (hitTest [rectItem 0 100;
              pieceItem (mkChessPiece 0 100 Pawn false);
              pieceItem (mkChessPiece 0 0 Rook true)])
    4 (Some (mkChessPiece 0 0 Rook true)) 4 0 = Some true
  <-> (4, 0) <> (currentRowOf (mkChessPiece 0 0 Rook true),
                 currentColOf (mkChessPiece 0 0 Rook true))
      /\ sameColorShown
           (hitTest [rectItem 0 100;
                     pieceItem (mkChessPiece 0 100 Pawn false);
                     pieceItem (mkChessPiece 0 0 Rook true)])
           (mkChessPiece 0 0 Rook true) 4 0 = false
      /\ (4 = currentRowOf (mkChessPiece 0 0 Rook true)
          \/ 0 = currentColOf (mkChessPiece 0 0 Rook true))
      /\ (4 - currentRowOf (mkChessPiece 0 0 Rook true) > 1
          \/ 0 - currentColOf (mkChessPiece 0 0 Rook true) > 1 ->
          pathClearOn
            (hitTest [rectItem 0 100;
                      pieceItem (mkChessPiece 0 100 Pawn false);
                      pieceItem (mkChessPiece 0 0 Rook true)])
            (currentRowOf (mkChessPiece 0 0 Rook true))
            (currentColOf (mkChessPiece 0 0 Rook true)) 4 0).
Proof.
  apply (rook_legal_iff_on_any_scene
           (hitTest [rectItem 0 100;
                     pieceItem (mkChessPiece 0 100 Pawn false);
                     pieceItem (mkChessPiece 0 0 Rook true)])
           4 (mkChessPiece 0 0 Rook true) 4 0).
  - reflexivity.
  - vm_compute. lia.
Defined.

Lemma double_step_pathOn (hit : HitTest) (fuel : nat) (row col d : Z) :
  (2 <= fuel)%nat ->
  d = 1 \/ d = -1 ->
  isPathBlockedOn hit fuel row col (row + 2 * d) col
  = Some (match shownAt hit (row + d) col with
          | Some _ => true
          | None => false
          end).
Proof.
  intros Hf Hd.
  assert (distance row col (row + 2 * d) col = 2%nat) as Hdist
    by (unfold distance; lia).
  rewrite isPathBlockedOn_spec;
    [|apply aligned_iff; auto|rewrite Hdist; assumption].
  replace ((row =? row + 2 * d) && (col =? col)) with false
    by (symmetry; apply andb_false_iff; left; apply Z.eqb_neq; lia).
  unfold pathShown. rewrite Hdist. cbn [Nat.sub shownAlong].
  assert (direction row (row + 2 * d) = d) as ->.
  { unfold direction.
    destruct (row + 2 * d >? row) eqn:E1;
      destruct (row + 2 * d <? row) eqn:E2; lia. }
  assert (direction col col = 0) as ->.
  { unfold direction. rewrite Z.gtb_ltb, Z.ltb_irrefl. reflexivity. }
  now rewrite Z.add_0_r, orb_false_r.
Qed.

Lemma isValidMoveWhitePawnOn_eq (hit : HitTest) (fuel : nat)
    (p : ChessPiece) (row col : Z) :
  (2 <= fuel)%nat ->
  isValidMoveWhitePawnOn hit fuel (Some p) row col
  = Some ((col - currentColOf p =? 0)
          && match shownAt hit row col with
             | None => true | Some _ => false end
          && ((row - currentRowOf p =? 1)
              || (row - currentRowOf p =? 2) && (currentRowOf p =? 6)
                 && match shownAt hit 7 (currentColOf p) with
                    | None => true | Some _ => false end)
          || (Z.abs (col - currentColOf p) =? 1)
             && (row - currentRowOf p =? -1)
             && otherColorShown hit p row col).
Proof.
  intro Hf. unfold isValidMoveWhitePawnOn, otherColorShown. cbv zeta.
  change (hit (col * 50 + 25) (row * 50 + 25)) with (shownAt hit row col).
  destruct (col - currentColOf p =? 0) eqn:Hc.
  - apply Z.eqb_eq in Hc.
    replace (Z.abs (col - currentColOf p) =? 1) with false
      by (symmetry; apply Z.eqb_neq; lia).
    destruct (shownAt hit row col) as [d|] eqn:Hd;
      cbn [andb orb bind]; [reflexivity|].
    destruct (row - currentRowOf p =? 1) eqn:H1;
      cbn [andb orb bind]; [reflexivity|].
    destruct (row - currentRowOf p =? 2) eqn:H2;
      cbn [andb orb bind andThen]; [|reflexivity].
    destruct (currentRowOf p =? 6) eqn:H6;
      cbn [andb orb bind andThen]; [|reflexivity].
    apply Z.eqb_eq in H2, H6.
    replace row with (currentRowOf p + 2 * 1) by lia.
    replace col with (currentColOf p) by lia.
    rewrite double_step_pathOn by auto. rewrite H6. change (6 + 1) with 7.
    destruct (shownAt hit 7 (currentColOf p)); reflexivity.
  - cbn [andb orb bind].
    destruct ((Z.abs (col - currentColOf p) =? 1)
              && (row - currentRowOf p =? -1)); [|reflexivity].
    destruct (shownAt hit row col) as [d|]; [|reflexivity].
    now destruct (negb (Bool.eqb (isWhitePiece d) (isWhitePiece p))).
Qed.

Lemma isValidMoveBlackPawnOn_eq (hit : HitTest) (fuel : nat)
    (p : ChessPiece) (row col : Z) :
  (2 <= fuel)%nat ->
  isValidMoveBlackPawnOn hit fuel (Some p) row col
  = Some ((col - currentColOf p =? 0)
          && match shownAt hit row col with
             | None => true | Some _ => false end
          && ((row - currentRowOf p =? -1)
              || (row - currentRowOf p =? -2) && (currentRowOf p =? 1)
                 && match shownAt hit 0 (currentColOf p) with
                    | None => true | Some _ => false end)
          || (Z.abs (col - currentColOf p) =? 1)
             && (row - currentRowOf p =? 1)
             && otherColorShown hit p row col).
Proof.
  intro Hf. unfold isValidMoveBlackPawnOn, otherColorShown. cbv zeta.
  change (hit (col * 50 + 25) (row * 50 + 25)) with (shownAt hit row col).
  destruct (col - currentColOf p =? 0) eqn:Hc.
  - apply Z.eqb_eq in Hc.
    replace (Z.abs (col - currentColOf p) =? 1) with false
      by (symmetry; apply Z.eqb_neq; lia).
    destruct (shownAt hit row col) as [d|] eqn:Hd;
      cbn [andb orb bind]; [reflexivity|].
    destruct (row - currentRowOf p =? -1) eqn:H1;
      cbn [andb orb bind]; [reflexivity|].
    destruct (row - currentRowOf p =? -2) eqn:H2;
      cbn [andb orb bind andThen]; [|reflexivity].
    destruct (currentRowOf p =? 1) eqn:H6;
      cbn [andb orb bind andThen]; [|reflexivity].
    apply Z.eqb_eq in H2, H6.
    replace row with (currentRowOf p + 2 * (-1)) by lia.
    replace col with (currentColOf p) by lia.
    rewrite double_step_pathOn by auto. rewrite H6.
    change (1 + -1) with 0.
    destruct (shownAt hit 0 (currentColOf p)); reflexivity.
  - cbn [andb orb bind]. reflexivity.
Qed.

Lemma pawn_rejected_iffOn (hit : HitTest) (p : ChessPiece) (row col : Z)
    (shape : Prop) :
  (shape -> (row, col) <> (currentRowOf p, currentColOf p)) ->
  (shape -> sameColorShown hit p row col = false) ->
  standsOn p row col = true \/ sameColorShown hit p row col = true ->
  Some false = Some true <-> shape.
Proof.
  intros Hmove Hfriend Hrej. split; [discriminate|]. intro Hs. exfalso.
  destruct Hrej as [H|H].
  - apply Hmove in Hs. apply standsOn_false_iff in Hs. congruence.
  - apply Hfriend in Hs. congruence.
Qed.

Lemma nothing_shown_not_sameColor (hit : HitTest) (p : ChessPiece)
    (row col : Z) :
  shownAt hit row col = None -> sameColorShown hit p row col = false.
Proof. unfold sameColorShown. now intros ->. Qed.

Lemma otherColorShown_not_sameColor (hit : HitTest) (p : ChessPiece)
    (row col : Z) :
  otherColorShown hit p row col = true ->
  sameColorShown hit p row col = false.
Proof.
  unfold otherColorShown, sameColorShown.
  destruct (shownAt hit row col); [|discriminate].
  now intro H; apply negb_true_iff in H.
Qed.

(** X8: whatever items the scene holds, with two units of fuel, a Pawn
    with [isWhite = true] may make exactly these moves: row delta +1 in
    its column onto a square whose topmost item is not a piece; row delta
    +2 in its column from row 6 onto such a square, when the topmost item
    of row 7 of that column is not a piece either; row delta -1 and one
    column aside onto a square whose topmost item is a piece of the other
    color (a piece under a rectangle is not taken). *)
Theorem white_pawn_legal_iff_on_any_scene
    (hit : HitTest) (fuel : nat) (p : ChessPiece) (row col : Z) :
  pieceType p = Pawn ->
  isWhitePiece p = true ->
  (2 <= fuel)%nat ->
  isValidMoveOn hit fuel (Some p) row col = Some true
  <-> (col = currentColOf p /\ shownAt hit row col = None
       /\ (row - currentRowOf p = 1
           \/ (row - currentRowOf p = 2 /\ currentRowOf p = 6
               /\ shownAt hit 7 (currentColOf p) = None)))
      \/ (Z.abs (col - currentColOf p) = 1 /\ row - currentRowOf p = -1
          /\ otherColorShown hit p row col = true).
Proof.
  intros Hk Hw Hf. rewrite isValidMoveOn_unfold, Hk, Hw.
  destruct (standsOn p row col) eqn:Hmove;
    [|destruct (sameColorShown hit p row col) eqn:Hfriend].
  - apply (pawn_rejected_iffOn hit p row col); [| |now left].
    + intros [[_ [_ H]]|[_ [H _]]] E; injection E as -> ->; lia.
    + intros [[_ [H _]]|[_ [_ H]]];
        [now apply nothing_shown_not_sameColor
        |now apply otherColorShown_not_sameColor].
  - apply (pawn_rejected_iffOn hit p row col); [| |now right].
    + intros [[_ [_ H]]|[_ [H _]]] E; injection E as -> ->; lia.
    + intros [[_ [H _]]|[_ [_ H]]];
        [now apply nothing_shown_not_sameColor
        |now apply otherColorShown_not_sameColor].
  - rewrite isValidMoveWhitePawnOn_eq by assumption.
    split.
    + intro H. injection H as H.
      repeat first [ rewrite orb_true_iff in H | rewrite andb_true_iff in H
                   | rewrite isNone_true_iff in H | rewrite Z.eqb_eq in H ].
      destruct H as [[[Hc Hd] [H|[[H2 H6] H7]]]|[[Hc Hr] Ho]].
      * left. repeat split; [lia | assumption | now left].
      * left. repeat split; [lia | assumption | right; auto].
      * right. auto.
    + intro H. f_equal.
      repeat first [ rewrite orb_true_iff | rewrite andb_true_iff
                   | rewrite isNone_true_iff | rewrite Z.eqb_eq ].
      destruct H as [[Hc [Hd [H|[H2 [H6 H7]]]]]|[Hc [Hr Ho]]].
      * left. repeat split; [lia | assumption | now left].
      * left. repeat split; [lia | assumption | right; auto].
      * right. auto.
Qed.

Lemma white_pawn_legal_iff_on_any_scene_witness :
  isValidMoveOn
    (hitTest [rectItem 150 0;
              pieceItem (mkChessPiece 200 50 Pawn true);
              pieceItem (mkChessPiece 150 0 Rook false)])
    2 (Some (mkChessPiece 200 50 Pawn true)) 0 3 = Some true
  <-> (3 = currentColOf (mkChessPiece 200 50 Pawn true)
       /\ shownAt
            (hitTest [rectItem 150 0;
                      pieceItem (mkChessPiece 200 50 Pawn true);
                      pieceItem (mkChessPiece 150 0 Rook false)]) 0 3
          = None
       /\ (0 - currentRowOf (mkChessPiece 200 50 Pawn true) = 1
           \/ (0 - currentRowOf (mkChessPiece 200 50 Pawn true) = 2
               /\ currentRowOf (mkChessPiece 200 50 Pawn true) = 6
               /\ shownAt
                    (hitTest [rectItem 150 0;
                              pieceItem (mkChessPiece 200 50 Pawn true);
                              pieceItem (mkChessPiece 150 0 Rook false)])
                    7 (currentColOf (mkChessPiece 200 50 Pawn true))
                  = None)))
      \/ (Z.abs (3 - currentColOf (mkChessPiece 200 50 Pawn true)) = 1
          /\ 0 - currentRowOf (mkChessPiece 200 50 Pawn true) = -1
          /\ otherColorShown
               (hitTest [rectItem 150 0;
                         pieceItem (mkChessPiece 200 50 Pawn true);
                         pieceItem (mkChessPiece 150 0 Rook false)])
               (mkChessPiece 200 50 Pawn true) 0 3 = true).
Proof.
  apply (white_pawn_legal_iff_on_any_scene
           (hitTest [rectItem 150 0;
                     pieceItem (mkChessPiece 200 50 Pawn true);
                     pieceItem (mkChessPiece 150 0 Rook false)])
           2 (mkChessPiece 200 50 Pawn true) 0 3).
  - reflexivity.
  - reflexivity.
  - lia.
Defined.

(** X9: whatever items the scene holds, with two units of fuel, a Pawn
    with [isWhite = false] may make exactly these moves: row delta -1 in
    its column onto a square whose topmost item is not a piece; row delta
    -2 in its column from row 1 onto such a square, when the topmost item
    of row 0 of that column is not a piece either; row delta +1 and one
    column aside onto a square whose topmost item is a piece of the other
    color (a piece under a rectangle is not taken). *)
Theorem black_pawn_legal_iff_on_any_scene
    (hit : HitTest) (fuel : nat) (p : ChessPiece) (row col : Z) :
  pieceType p = Pawn ->
  isWhitePiece p = false ->
  (2 <= fuel)%nat ->
  isValidMoveOn hit fuel (Some p) row col = Some true
  <-> (col = currentColOf p /\ shownAt hit row col = None
       /\ (row - currentRowOf p = -1
           \/ (row - currentRowOf p = -2 /\ currentRowOf p = 1
               /\ shownAt hit 0 (currentColOf p) = None)))
      \/ (Z.abs (col - currentColOf p) = 1 /\ row - currentRowOf p = 1
          /\ otherColorShown hit p row col = true).
Proof.
  intros Hk Hw Hf. rewrite isValidMoveOn_unfold, Hk, Hw.
  destruct (standsOn p row col) eqn:Hmove;
    [|destruct (sameColorShown hit p row col) eqn:Hfriend].
  - apply (pawn_rejected_iffOn hit p row col); [| |now left].
    + intros [[_ [_ H]]|[_ [H _]]] E; injection E as -> ->; lia.
    + intros [[_ [H _]]|[_ [_ H]]];
        [now apply nothing_shown_not_sameColor
        |now apply otherColorShown_not_sameColor].
  - apply (pawn_rejected_iffOn hit p row col); [| |now right].
    + intros [[_ [_ H]]|[_ [H _]]] E; injection E as -> ->; lia.
    + intros [[_ [H _]]|[_ [_ H]]];
        [now apply nothing_shown_not_sameColor
        |now apply otherColorShown_not_sameColor].
  - rewrite isValidMoveBlackPawnOn_eq by assumption.
    split.
    + intro H. injection H as H.
      repeat first [ rewrite orb_true_iff in H | rewrite andb_true_iff in H
                   | rewrite isNone_true_iff in H | rewrite Z.eqb_eq in H ].
      destruct H as [[[Hc Hd] [H|[[H2 H6] H7]]]|[[Hc Hr] Ho]].
      * left. repeat split; [lia | assumption | now left].
      * left. repeat split; [lia | assumption | right; auto].
      * right. auto.
    + intro H. f_equal.
      repeat first [ rewrite orb_true_iff | rewrite andb_true_iff
                   | rewrite isNone_true_iff | rewrite Z.eqb_eq ].
      destruct H as [[Hc [Hd [H|[H2 [H6 H7]]]]]|[Hc [Hr Ho]]].
      * left. repeat split; [lia | assumption | now left].
      * left. repeat split; [lia | assumption | right; auto].
      * right. auto.
Qed.

Lemma black_pawn_legal_iff_on_any_scene_witness :
  isValidMoveOn
    (hitTest [rectItem 150 350;
              pieceItem (mkChessPiece 200 300 Pawn false);
              pieceItem (mkChessPiece 150 350 Rook true)])
    2 (Some (mkChessPiece 200 300 Pawn false)) 7 3 = Some true
  <-> (3 = currentColOf (mkChessPiece 200 300 Pawn false)
       /\ shownAt
            (hitTest [rectItem 150 350;
                      pieceItem (mkChessPiece 200 300 Pawn false);
                      pieceItem (mkChessPiece 150 350 Rook true)]) 7 3
          = None
       /\ (7 - currentRowOf (mkChessPiece 200 300 Pawn false) = -1
           \/ (7 - currentRowOf (mkChessPiece 200 300 Pawn false) = -2
               /\ currentRowOf (mkChessPiece 200 300 Pawn false) = 1
               /\ shownAt
                    (hitTest [rectItem 150 350;
                              pieceItem (mkChessPiece 200 300 Pawn false);
                              pieceItem (mkChessPiece 150 350 Rook true)])
                    0 (currentColOf (mkChessPiece 200 300 Pawn false))
                  = None)))
      \/ (Z.abs (3 - currentColOf (mkChessPiece 200 300 Pawn false)) = 1
          /\ 7 - currentRowOf (mkChessPiece 200 300 Pawn false) = 1
          /\ otherColorShown
               (hitTest [rectItem 150 350;
                         pieceItem (mkChessPiece 200 300 Pawn false);
                         pieceItem (mkChessPiece 150 350 Rook true)])
               (mkChessPiece 200 300 Pawn false) 7 3 = true).
Proof.
  apply (black_pawn_legal_iff_on_any_scene
           (hitTest [rectItem 150 350;
                     pieceItem (mkChessPiece 200 300 Pawn false);
                     pieceItem (mkChessPiece 150 350 Rook true)])
           2 (mkChessPiece 200 300 Pawn false) 7 3).
  - reflexivity.
  - reflexivity.
  - lia.
Defined.

(** A capture square that carries a rectangle: the Pawn's capture is
    accepted on the pieces alone and refused once the rectangle lies on
    the piece to take. *)
Example pawn_capture_under_rectangle_is_refused :
  isValidMoveOn
    (hitTest [pieceItem (mkChessPiece 200 300 Pawn false);
              pieceItem (mkChessPiece 150 350 Rook true)])
    2 (Some (mkChessPiece 200 300 Pawn false)) 7 3 = Some true
  /\ isValidMoveOn
       (hitTest [rectItem 150 350;
                 pieceItem (mkChessPiece 200 300 Pawn false);
                 pieceItem (mkChessPiece 150 350 Rook true)])
       2 (Some (mkChessPiece 200 300 Pawn false)) 7 3 = Some false.
Proof. repeat split. Qed.
